(** * Value reconciliation and context derivation of the motion components

    A shallow embedding of
      - [src/motion/utils/use-motion-values.ts]  (module [Reconciler])
      - [src/motion/context/MotionContext.ts]    (module [Context])
    together with the properties their specification states about them. *)

From stdpp Require Import gmap strings list fin_maps.
From Stdlib Require Import ZArith.

Set Default Proof Using "Type".

(** ** JavaScript values *)

Module JS.

(** Identity of a heap-allocated object. *)
Definition ObjId := nat.

(** The values the two files handle. Objects carry their identity: the
    code compares them with [!==] and React compares memo dependencies with
    [Object.is], both of which are reference comparisons on objects.
    Numbers are modelled by the integers: the code compares them and adds
    1 to a depth, nothing more. *)
#[local] Set Warnings "-register-all".
Inductive Val : Type :=
| VUndefined
| VNull
| VBool (b : bool)
| VNum (n : Z)
| VStr (s : string)
| VArray (id : ObjId) (items : list Val)
| VObject (id : ObjId) (fields : list (string * Val))
| VMotionValue (id : ObjId)          (* an instance of [MotionValue] *)
| VAnimationControls (id : ObjId).   (* an instance of [AnimationControls] *)
#[local] Set Warnings "register-all".

(** A plain object seen as its enumerable own properties, in [for..in]
    order. *)
Definition Bag := list (string * Val).

(** Modelled from the spec: [isMotionValue] (value/utils/is-motion-value)
    is not among the sources; it is the identity check of the binding
    type, [value instanceof MotionValue]. *)
Definition isMotionValue (v : Val) : bool :=
  match v with VMotionValue _ => true | _ => false end.

(** [v instanceof AnimationControls] *)
Definition instanceofAnimationControls (v : Val) : bool :=
  match v with VAnimationControls _ => true | _ => false end.

(** [typeof v === "string"] *)
Definition typeofString (v : Val) : bool :=
  match v with VStr _ => true | _ => false end.

(** [typeof v === "boolean"] *)
Definition typeofBoolean (v : Val) : bool :=
  match v with VBool _ => true | _ => false end.

(** [Array.isArray(v)] *)
Definition isArray (v : Val) : bool :=
  match v with VArray _ _ => true | _ => false end.

(** ToBoolean: what [if (v)], [v || w], [v && w] and [!v] test. *)
Definition truthy (v : Val) : bool :=
  match v with
  | VUndefined | VNull => false
  | VBool b => b
  | VNum n => negb (n =? 0)%Z
  | VStr s => negb (bool_decide (s = EmptyString))
  | VArray _ _ | VObject _ _ | VMotionValue _ | VAnimationControls _ => true
  end.

(** [a || b] and [a && b] on values. *)
Definition jsOr (a b : Val) : Val := if truthy a then a else b.
Definition jsAnd (a b : Val) : Val := if truthy a then b else a.

(** [a === b]; on the integers this is also [Object.is(a, b)]. *)
Definition sameValue (a b : Val) : bool :=
  match a, b with
  | VUndefined, VUndefined => true
  | VNull, VNull => true
  | VBool x, VBool y => bool_decide (x = y)
  | VNum x, VNum y => bool_decide (x = y)
  | VStr x, VStr y => bool_decide (x = y)
  | VArray i _, VArray j _ => bool_decide (i = j)
  | VObject i _, VObject j _ => bool_decide (i = j)
  | VMotionValue i, VMotionValue j => bool_decide (i = j)
  | VAnimationControls i, VAnimationControls j => bool_decide (i = j)
  | _, _ => false
  end.

(** [bag[key]] : [undefined] when the key is absent. *)
Fixpoint bagGet (key : string) (b : Bag) : Val :=
  match b with
  | [] => VUndefined
  | (k, v) :: rest => if decide (k = key) then v else bagGet key rest
  end.

(** [bag[key] = value] : an existing key keeps its place, a new one goes
    last. *)
Fixpoint bagSet (key : string) (value : Val) (b : Bag) : Bag :=
  match b with
  | [] => [(key, value)]
  | (k, v) :: rest =>
      if decide (k = key) then (k, value) :: rest
      else (k, v) :: bagSet key value rest
  end.

(** [delete bag[key]] *)
Fixpoint bagDelete (key : string) (b : Bag) : Bag :=
  match b with
  | [] => []
  | (k, v) :: rest =>
      if decide (k = key) then bagDelete key rest
      else (k, v) :: bagDelete key rest
  end.

(** The keys [for (const key in bag)] visits. *)
Definition bagKeys (b : Bag) : list string := b.*1.

(** [v[key]] for a value used as an object ([props.style[key]]). *)
Definition getField (key : string) (v : Val) : Val :=
  match v with VObject _ fields => bagGet key fields | _ => VUndefined end.

(** The properties [for (const key in v)] enumerates. *)
Definition ownFields (v : Val) : Bag :=
  match v with VObject _ fields => fields | _ => [] end.

End JS.

Export JS.

(** ** use-motion-values.ts *)

Module Reconciler.

(** *** The world of one component *)

(** Calls the reconciler makes on its collaborators, in program order. *)
Inductive Call : Type :=
| CallAddValue (key : string) (binding : ObjId)
| CallRemoveValue (key : string)
| CallMotionValue (init : Val) (binding : ObjId)   (* [motionValue(init)] *)
| CallSet (binding : ObjId) (value : Val)          (* [binding.set(value)] *)
| ResetStaticStyle                                 (* [staticStyle = {}] *)
| AssignStaticStyle (key : string) (value : Val).

(** Modelled from the spec: the [VisualElement] class (render/VisualElement)
    is not among the sources. The spec gives its contract: a keyed
    association name -> binding with [addValue], [removeValue], [hasValue],
    [getValue], and a mutable [staticStyle] bag. *)
Record VisualElement : Type := {
  values : gmap string ObjId;
  staticStyle : Bag;
}.

(** Everything one component's synchronization reads and writes:
    the visual element, what each binding currently holds (by identity),
    the [useConstant(empty)] snapshot, and the calls made so far. *)
Record World : Type := {
  visualElement : VisualElement;
  bindings : list Val;
  prev : Bag;
  calls : list Call;
}.

Inductive Exception : Type :=
| TypeError.   (* a property read on [undefined] *)

Inductive Outcome (A : Type) : Type :=
| Returns (a : A) (w : World)
| Throws (e : Exception).
Arguments Returns {A} a w.
Arguments Throws {A} e.

(** Statements: a world in, a value and a world out, or an exception. *)
Definition M (A : Type) : Type := World -> Outcome A.

Definition ret {A} (a : A) : M A := fun w => Returns a w.

Definition bind {A B} (m : M A) (k : A -> M B) : M B :=
  fun w => match m w with
           | Returns a w' => k a w'
           | Throws e => Throws e
           end.

Definition throw {A} (e : Exception) : M A := fun _ => Throws e.

Declare Scope js_scope.
Delimit Scope js_scope with js.
Notation "'let*' x ':=' m 'in' k" := (bind m (fun x => k))
  (at level 10, x name, m at level 100, k at level 200) : js_scope.
Notation "m ';;' k" := (bind m (fun _ => k))
  (at level 100, k at level 200, right associativity) : js_scope.
Open Scope js_scope.

(** [for (const key in bag) body(key, bag[key])] *)
Fixpoint forIn (b : Bag) (body : string -> Val -> M unit) : M unit :=
  match b with
  | [] => ret tt
  | (key, value) :: rest => body key value ;; forIn rest body
  end.

Definition log (c : Call) : M unit :=
  fun w => Returns tt {| visualElement := visualElement w; bindings := bindings w;
                         prev := prev w; calls := calls w ++ [c] |}.

Definition modifyVisualElement (f : VisualElement -> VisualElement) : M unit :=
  fun w => Returns tt {| visualElement := f (visualElement w); bindings := bindings w;
                         prev := prev w; calls := calls w |}.

Definition modifyPrev (f : Bag -> Bag) : M unit :=
  fun w => Returns tt {| visualElement := visualElement w; bindings := bindings w;
                         prev := f (prev w); calls := calls w |}.

Definition modifyBindings (f : list Val -> list Val) : M unit :=
  fun w => Returns tt {| visualElement := visualElement w; bindings := f (bindings w);
                         prev := prev w; calls := calls w |}.

Definition getWorld : M World := fun w => Returns w w.

(** Modelled from the spec: [visualElement.addValue(key, binding)]
    associates the binding with the name. *)
Definition addValue (key : string) (binding : ObjId) : M unit :=
  log (CallAddValue key binding) ;;
  modifyVisualElement (fun ve =>
    {| values := <[key := binding]> (values ve); staticStyle := staticStyle ve |}).

(** Modelled from the spec: [visualElement.removeValue(key)] drops the
    association of the name. *)
Definition removeValue (key : string) : M unit :=
  log (CallRemoveValue key) ;;
  modifyVisualElement (fun ve =>
    {| values := delete key (values ve); staticStyle := staticStyle ve |}).

(** Modelled from the spec: [visualElement.hasValue(key)]. *)
Definition hasValue (key : string) : M bool :=
  let* w := getWorld in
  ret (bool_decide (is_Some (values (visualElement w) !! key))).

(** Modelled from the spec: [visualElement.getValue(key)], a binding or
    [undefined] ([None]). *)
Definition getValue (key : string) : M (option ObjId) :=
  let* w := getWorld in
  ret (values (visualElement w) !! key).

(** [visualElement.staticStyle = {}] *)
Definition resetStaticStyle : M unit :=
  log ResetStaticStyle ;;
  modifyVisualElement (fun ve => {| values := values ve; staticStyle := [] |}).

(** [visualElement.staticStyle[key] = value] *)
Definition assignStaticStyle (key : string) (value : Val) : M unit :=
  log (AssignStaticStyle key value) ;;
  modifyVisualElement (fun ve =>
    {| values := values ve; staticStyle := bagSet key value (staticStyle ve) |}).

(** Modelled from the spec: [motionValue] and [MotionValue] (value/index)
    are not among the sources; a binding is an opaque container with
    [get]/[set] and an identity. [motionValue(init)] is a new binding
    holding [init]. *)
Definition motionValue (init : Val) : M ObjId :=
  let* w := getWorld in
  let binding := length (bindings w) in
  log (CallMotionValue init binding) ;;
  modifyBindings (fun h => h ++ [init]) ;;
  ret binding.

(** Modelled from the spec: [motion!.set(value)] stores the value in the
    binding. The [!] is erased at run time: reading [set] off [undefined]
    throws. *)
Definition setMotion (motion : option ObjId) (value : Val) : M unit :=
  match motion with
  | None => throw TypeError
  | Some binding =>
      log (CallSet binding value) ;;
      modifyBindings (fun h => <[binding := value]> h)
  end.

(** [prev[key]] *)
Definition getPrev (key : string) : M Val :=
  let* w := getWorld in ret (bagGet key (prev w)).

(** The [reservedNames] set, as its membership test [reservedNames.has]. *)
Definition reservedNames (key : string) : bool :=
  bool_decide (key ∈ ["dragOriginX"; "dragOriginY"; "_dragValueX"; "_dragValueY"]%string).

(** *** The hook *)

Section WithTransformTables.

(** [isTransformProp] and [isTransformOriginProp] come from
    render/dom/utils/transform, which is not among the sources: they are
    parameters of the development. *)
Variable isTransformProp : string -> bool.
Variable isTransformOriginProp : string -> bool.

(** The body of the loop of [addMotionValues]; it returns
    [foundMotionValue] as it stands before the last [if]. *)
Definition classify (isStyle : bool) (key : string) (value : Val) : M bool :=
  match value with
  | VMotionValue binding =>
      if negb (reservedNames key) then addValue key binding ;; ret true
      else ret false
  | _ =>
      if isTransformProp key || isTransformOriginProp key then
        let* has := hasValue key in
        (if negb has then
           let* fresh := motionValue value in addValue key fresh
         else
           let* last := getPrev key in
           if negb (sameValue value last) then
             let* motion := getValue key in setMotion motion value
           else ret tt) ;;
        ret true
      else if isStyle then assignStaticStyle key value ;; ret false
      else ret false
  end.

Definition addMotionValues (source : Bag) (isStyle : bool) : M unit :=
  (if isStyle then resetStaticStyle else ret tt) ;;
  forIn source (fun key value =>
    let* foundMotionValue := classify isStyle key value in
    if foundMotionValue then modifyPrev (bagSet key value) else ret tt).

(** The body of the removal loop of [useMotionValues]. *)
Definition removeStale (props : Bag) (key : string) : M unit :=
  let propIsValue := isMotionValue (bagGet key props) in
  let styleIsValue :=
    jsAnd (bagGet "style" props)
          (VBool (isMotionValue (getField key (bagGet "style" props)))) in
  if negb propIsValue && negb (truthy styleIsValue) then
    removeValue key ;; modifyPrev (bagDelete key)
  else ret tt.

(** [useMotionValues(visualElement, props)]: one evaluation of the hook.
    The visual element and the [useConstant] snapshot are in the world. *)
Definition useMotionValues (props : Bag) : M unit :=
  let* w := getWorld in
  forIn (prev w) (fun key _ => removeStale props key) ;;
  addMotionValues props false ;;
  if truthy (bagGet "style" props)
  then addMotionValues (ownFields (bagGet "style" props)) true
  else ret tt.


(** *** The vocabulary of the properties *)

(** Total correctness: from a world satisfying [P] the statement returns
    (it does not throw) and the result satisfies [Q]. *)
Definition hoare {A} (P : World -> Prop) (m : M A) (Q : A -> World -> Prop) : Prop :=
  ∀ w, P w -> ∃ a w', m w = Returns a w' ∧ Q a w'.

(** [key] has a binding in the registry. *)
Definition registered (key : string) (w : World) : Prop :=
  is_Some (values (visualElement w) !! key).

(** The snapshot names registered properties only. *)
Definition snapshotRegistered (w : World) : Prop :=
  ∀ key, key ∈ bagKeys (prev w) -> registered key w.

(** The snapshot names exactly the registered properties. *)
Definition snapshotIsRegistry (w : World) : Prop :=
  ∀ key, key ∈ bagKeys (prev w) <-> registered key w.

(** The entries [addMotionValues] registers: a binding under a name that is
    not reserved, or a raw value under a transform name. This is the value of
    [foundMotionValue]. *)
Definition registers (key : string) (value : Val) : bool :=
  if isMotionValue value then negb (reservedNames key)
  else isTransformProp key || isTransformOriginProp key.

(** The calls made between two worlds are [new]. *)
Definition callsFrom (w w' : World) (new : list Call) : Prop :=
  calls w' = calls w ++ new.

(** The entries a pass scans: the props, then the style bag. *)
Definition declared (props : Bag) : Bag :=
  props ++ ownFields (bagGet "style" props).

(** Every occurrence of [key] among the entries is a binding. *)
Definition suppliedAsBinding (key : string) (source : Bag) : Prop :=
  ∀ value, (key, value) ∈ source -> isMotionValue value = true.

(** What the addition passes over the entries [source] may have changed
    between [w] and [w']. *)
Record added (source : Bag) (w w' : World) : Prop := {
  added_calls : ∃ new, callsFrom w w' new ∧
      ∀ k b, CallAddValue k b ∈ new ->
             ∃ value, (k, value) ∈ source ∧ registers k value = true;
  added_registered : ∀ k, registered k w -> registered k w';
  added_untouched : ∀ k, (∀ value, (k, value) ∈ source -> registers k value = false) ->
      values (visualElement w') !! k = values (visualElement w) !! k;
  added_prev : ∀ k, k ∈ bagKeys (prev w) -> k ∈ bagKeys (prev w');
  added_recorded : ∀ k value, (k, value) ∈ source -> registers k value = true ->
      k ∈ bagKeys (prev w') ∧ registered k w';
  added_snapshot : snapshotRegistered w -> snapshotRegistered w';
  added_exact : snapshotIsRegistry w -> snapshotIsRegistry w';
}.

(** What the removal loop may have changed between [w] and [w']. *)
Record removed (w w' : World) : Prop := {
  removed_calls : ∃ new, callsFrom w w' new ∧ ∀ k b, CallAddValue k b ∉ new;
  removed_values : ∀ k,
      values (visualElement w') !! k = values (visualElement w) !! k ∨
      values (visualElement w') !! k = None;
  removed_snapshot : snapshotRegistered w -> snapshotRegistered w';
  removed_exact : snapshotIsRegistry w -> snapshotIsRegistry w';
}.

(** What one evaluation of [useMotionValues] does to the world. *)
Record synchronized (props : Bag) (w w' : World) : Prop := {
  sync_calls : ∃ new, callsFrom w w' new ∧
      ∀ k b, CallAddValue k b ∈ new ->
             ∃ value, (k, value) ∈ declared props ∧ registers k value = true;
  sync_untouched : ∀ k,
      (∀ value, (k, value) ∈ declared props -> registers k value = false) ->
      values (visualElement w') !! k = values (visualElement w) !! k ∨
      values (visualElement w') !! k = None;
  sync_recorded : ∀ k value, (k, value) ∈ declared props -> registers k value = true ->
      k ∈ bagKeys (prev w') ∧ registered k w';
  sync_snapshot : snapshotRegistered w -> snapshotRegistered w';
  sync_exact : snapshotIsRegistry w -> snapshotIsRegistry w';
}.

(** *** Sample inputs *)

(** A newly mounted component: nothing registered, no binding allocated,
    the snapshot as [empty()] returns it. *)
Definition mounted : World :=
  {| visualElement := {| values := ∅; staticStyle := [] |};
     bindings := []; prev := []; calls := [] |}.

(** The world after [mounted] rendered [rotate: 45]. *)
Definition rotated45 : World :=
  {| visualElement := {| values := {["rotate"%string := 0%nat]}; staticStyle := [] |};
     bindings := [VNum 45];
     prev := [("rotate"%string, VNum 45)];
     calls := [CallMotionValue (VNum 45) 0; CallAddValue "rotate" 0] |}.

(** Tables for the examples: the transform names the specification
    mentions (rotation, scale, translation axes) and their origins. *)
Definition sampleTransformProp (key : string) : bool :=
  bool_decide (key ∈ ["x"; "y"; "z"; "rotate"; "scale"]%string).

Definition sampleTransformOriginProp (key : string) : bool :=
  bool_decide (key ∈ ["originX"; "originY"; "originZ"]%string).

(** A binding under a reserved name, at the top level and in the style. *)
Definition dragProps : Bag :=
  [("dragOriginX"%string, VMotionValue 0);
   ("style"%string, VObject 1 [("dragOriginX"%string, VMotionValue 0);
                               ("opacity"%string, VNum 1)])].


(** A binding [x] at the top level that the style bag overrides. *)
Definition overriddenProps : Bag :=
  [("x"%string, VMotionValue 0);
   ("style"%string, VObject 1 [("x"%string, VMotionValue 2);
                               ("opacity"%string, VNum 1)])].

(** A binding [rotate] at the top level and a raw value in the style. *)
Definition rotateProps : Bag :=
  [("rotate"%string, VMotionValue 0);
   ("style"%string, VObject 1 [("rotate"%string, VNum 90)])].

(** A binding [x] and a static style; the same without the binding. *)
Definition boundProps : Bag :=
  [("x"%string, VMotionValue 0);
   ("style"%string, VObject 1 [("opacity"%string, VNum 5)])].

Definition unboundProps : Bag :=
  [("style"%string, VObject 1 [("opacity"%string, VNum 5)])].

(** The world after [mounted] rendered [boundProps]. *)
Definition boundX : World :=
  {| visualElement := {| values := {["x"%string := 0%nat]};
                         staticStyle := [("opacity"%string, VNum 5)] |};
     bindings := [];
     prev := [("x"%string, VMotionValue 0)];
     calls := [CallAddValue "x" 0; ResetStaticStyle;
               AssignStaticStyle "opacity" (VNum 5)] |}.

(** *** Facts about bags *)

Lemma bagKeys_bagSet (key : string) (value : Val) (b : Bag) (k : string) :
  k ∈ bagKeys (bagSet key value b) <-> k = key ∨ k ∈ bagKeys b.
Proof.
  unfold bagKeys. induction b as [| [k0 v0] rest IH]; cbn.
  - by rewrite elem_of_cons, elem_of_nil.
  - destruct (decide (k0 = key)) as [-> | Hne]; cbn; rewrite !elem_of_cons.
    + split; [intros [-> | ?]; auto | intros [-> | [-> | ?]]; auto].
    + rewrite IH. split; intros [? | [? | ?]]; auto.
Qed.

Lemma bagKeys_bagDelete (key : string) (b : Bag) (k : string) :
  k ∈ bagKeys (bagDelete key b) <-> k ≠ key ∧ k ∈ bagKeys b.
Proof.
  unfold bagKeys. induction b as [| [k0 v0] rest IH]; cbn.
  - rewrite elem_of_nil. split; [done | by intros [_ ?]].
  - destruct (decide (k0 = key)) as [-> | Hne]; cbn; rewrite ?elem_of_cons, IH.
    + split; [intros [? ?]; auto | intros [Hk [-> | Hin]]; [congruence | auto]].
    + split; [intros [-> | [? ?]]; auto | intros [? [-> | ?]]; auto].
Qed.

Ltac run :=
  cbv beta iota zeta delta
    [bind ret throw log modifyVisualElement modifyPrev modifyBindings getWorld
     addValue removeValue hasValue getValue resetStaticStyle assignStaticStyle
     motionValue setMotion getPrev];
  cbn [visualElement bindings prev calls values staticStyle].

(** Closes the side goals about which calls a step made and which
    registry entries it touched. *)
Ltac settle :=
  intros; try match goal with |- ¬ _ => intro end;
  repeat match goal with
    | H : _ ∈ [] |- _ => by apply elem_of_nil in H
    | H : _ ∈ _ :: _ |- _ => apply elem_of_cons in H as [H | H]
    | H : CallAddValue _ _ = _ |- _ => inversion H; subst; clear H
    | H : CallRemoveValue _ = _ |- _ => inversion H; subst; clear H
    end;
  try done; simplify_map_eq; eauto.

(** *** Reasoning about statements *)

Lemma hoare_ret {A} (P : World -> Prop) (a : A) (Q : A -> World -> Prop) :
  (∀ w, P w -> Q a w) -> hoare P (ret a) Q.
Proof. intros HQ w Hw. exists a, w. split; [reflexivity | auto]. Qed.

Lemma hoare_bind {A B} (P : World -> Prop) (m : M A) (R : A -> World -> Prop)
    (k : A -> M B) (Q : B -> World -> Prop) :
  hoare P m R -> (∀ a, hoare (R a) (k a) Q) -> hoare P (bind m k) Q.
Proof.
  intros Hm Hk w Hw. destruct (Hm w Hw) as (a & w1 & E1 & HR).
  destruct (Hk a w1 HR) as (b & w2 & E2 & HQ).
  exists b, w2. split; [| exact HQ]. unfold bind. rewrite E1. exact E2.
Qed.

(** The loop rule: [I done] holds after the entries [done] were visited. *)
Lemma hoare_forIn (I : Bag -> World -> Prop) (body : string -> Val -> M unit) (b : Bag) :
  (∀ done key value rest, b = done ++ (key, value) :: rest ->
     hoare (I done) (body key value) (fun _ => I (done ++ [(key, value)]))) ->
  hoare (I []) (forIn b body) (fun _ => I b).
Proof.
  intros Hbody.
  cut (∀ rest done, b = done ++ rest -> hoare (I done) (forIn rest body) (fun _ => I b)).
  { intros H. apply (H b []). reflexivity. }
  induction rest as [| [key value] rest IH]; intros done E.
  - rewrite app_nil_r in E. rewrite E. apply hoare_ret. auto.
  - cbn [forIn]. eapply hoare_bind.
    + apply (Hbody done key value rest E).
    + intros ?. apply IH. rewrite <- app_assoc. exact E.
Qed.

(** The loop rule for an invariant that does not depend on the position. *)
Lemma hoare_forIn_inv (I : World -> Prop) (body : string -> Val -> M unit) (b : Bag) :
  (∀ key value, (key, value) ∈ b -> hoare I (body key value) (fun _ => I)) ->
  hoare I (forIn b body) (fun _ => I).
Proof.
  intros Hbody. apply (hoare_forIn (fun _ => I)).
  intros done key value rest ->. apply Hbody.
  apply elem_of_app. right. apply elem_of_cons. by left.
Qed.

(** *** What one pass does *)

(** The registry contract the update branch relies on. *)
Lemma hasValue_getValue (key : string) (w : World) :
  ∃ has motion, hasValue key w = Returns has w ∧ getValue key w = Returns motion w ∧
    (has = true <-> is_Some motion).
Proof.
  eexists _, _. split; [reflexivity |]. split; [reflexivity |].
  apply bool_decide_eq_true.
Qed.

Lemma classify_raw (isStyle : bool) (key : string) (value : Val) :
  isMotionValue value = false ->
  classify isStyle key value =
    (if isTransformProp key || isTransformOriginProp key then
       let* has := hasValue key in
       (if negb has then
          let* fresh := motionValue value in addValue key fresh
        else
          let* last := getPrev key in
          if negb (sameValue value last) then
            let* motion := getValue key in setMotion motion value
          else ret tt) ;;
       ret true
     else if isStyle then assignStaticStyle key value ;; ret false
     else ret false).
Proof. destruct value; (discriminate || reflexivity). Qed.

Lemma classify_outcome (isStyle : bool) (key : string) (value : Val) (w : World) :
  ∃ w' new, classify isStyle key value w = Returns (registers key value) w' ∧
    prev w' = prev w ∧
    callsFrom w w' new ∧
    (∀ k b, CallAddValue k b ∈ new -> k = key ∧ registers key value = true) ∧
    (∀ k, k ≠ key -> values (visualElement w') !! k = values (visualElement w) !! k) ∧
    (registers key value = true -> registered key w') ∧
    (registers key value = false ->
       values (visualElement w') !! key = values (visualElement w) !! key) ∧
    (registered key w -> registered key w').
Proof.
  unfold registers, callsFrom, registered.
  destruct (isMotionValue value) eqn:Hmv.
  - destruct value; try discriminate. cbn [classify].
    destruct (reservedNames key) eqn:Hr; cbn [negb]; run.
    + exists w, []. rewrite app_nil_r. repeat split; settle.
    + eexists _, [_]. split; [reflexivity |]. cbn. repeat split; settle.
  - rewrite (classify_raw _ _ _ Hmv).
    destruct (isTransformProp key || isTransformOriginProp key) eqn:Ht.
    + run. case_bool_decide as Hhas; cbn [negb].
      * destruct (negb (sameValue value (bagGet key (prev w)))); run.
        -- destruct Hhas as [m Hm]. rewrite Hm. run.
           eexists _, [_]. split; [reflexivity |]. cbn. repeat split; settle.
        -- exists w, []. rewrite app_nil_r. repeat split; settle.
      * eexists _, [_; _]. split; [reflexivity |]. cbn.
        rewrite <- app_assoc. repeat split; settle.
    + destruct isStyle; run.
      * eexists _, [_]. split; [reflexivity |]. cbn. repeat split; settle.
      * exists w, []. rewrite app_nil_r. repeat split; settle.
Qed.

Lemma added_nil (w w' : World) (new : list Call) :
  callsFrom w w' new -> (∀ k b, CallAddValue k b ∉ new) ->
  values (visualElement w') = values (visualElement w) -> prev w' = prev w ->
  added [] w w'.
Proof.
  intros Hc Hnew Hv Hp.
  split; unfold snapshotIsRegistry, snapshotRegistered, registered;
    rewrite ?Hv, ?Hp; try done.
  - exists new. split; [done |]. intros k b H. by apply Hnew in H.
  - intros k value H. by apply elem_of_nil in H.
Qed.

Lemma added_app (s1 s2 : Bag) (w w1 w2 : World) :
  added s1 w w1 -> added s2 w1 w2 -> added (s1 ++ s2) w w2.
Proof.
  intros [(n1 & C1 & N1) R1 U1 P1 D1 S1 X1] [(n2 & C2 & N2) R2 U2 P2 D2 S2 X2].
  split; auto.
  - exists (n1 ++ n2). split.
    + unfold callsFrom in *. rewrite C2, C1. by rewrite app_assoc.
    + intros k b [H | H]%elem_of_app.
      * destruct (N1 k b H) as (v & Hin & Hr). exists v. split; [| done].
        apply elem_of_app. by left.
      * destruct (N2 k b H) as (v & Hin & Hr). exists v. split; [| done].
        apply elem_of_app. by right.
  - intros k Hk. rewrite U2, U1; [done | |]; intros v Hv; apply Hk, elem_of_app; auto.
  - intros k v [H | H]%elem_of_app Hr.
    + destruct (D1 k v H Hr). split; auto.
    + apply (D2 k v H Hr).
Qed.

(** One turn of the loop of [addMotionValues]. *)
Lemma addMotionValues_entry (isStyle : bool) (key : string) (value : Val) (w : World) :
  ∃ w', (let* foundMotionValue := classify isStyle key value in
         if foundMotionValue then modifyPrev (bagSet key value) else ret tt) w
        = Returns tt w' ∧ added [(key, value)] w w'.
Proof.
  destruct (classify_outcome isStyle key value w)
    as (w1 & new & E & Hp & Hc & Hnew & Hne & Hreg & Hsame & Hmono).
  unfold bind at 1. rewrite E.
  assert (Hall : ∀ k, registered k w -> registered k w1).
  { intros k Hk. destruct (decide (k = key)) as [-> | Hd]; [auto |].
    unfold registered. by rewrite Hne. }
  destruct (registers key value) eqn:Hr; run; eexists; (split; [reflexivity |]).
  - split; cbn [visualElement bindings prev calls values staticStyle]; auto.
    + exists new. split; [exact Hc |]. intros k b H. destruct (Hnew k b H) as [-> _].
      exists value. split; [by apply list_elem_of_singleton | done].
    + intros k Hk. destruct (decide (k = key)) as [-> | Hd]; [| by apply Hne].
      specialize (Hk value). rewrite Hr in Hk.
      by discriminate Hk; apply list_elem_of_singleton.
    + intros k Hk. apply bagKeys_bagSet. right. by rewrite Hp.
    + intros k v Hin%list_elem_of_singleton _. injection Hin as -> ->.
      split; [apply bagKeys_bagSet; by left | by apply Hreg].
    + intros Hs k [-> | Hk]%bagKeys_bagSet; unfold registered; cbn; [by apply Hreg |].
      apply Hall, Hs. by rewrite <- Hp.
    + intros Hx k. cbn [prev]. rewrite bagKeys_bagSet, Hp, (Hx k).
      destruct (decide (k = key)) as [-> | Hd].
      * split; [intros _; by apply Hreg | by left].
      * unfold registered. cbn [visualElement]. rewrite (Hne k Hd).
        split; [by intros [? | ?] | by right].
  - split; auto.
    + exists new. split; [exact Hc |]. intros k b H. by destruct (Hnew k b H) as [_ ?].
    + intros k Hk. destruct (decide (k = key)) as [-> | Hd]; [by apply Hsame | by apply Hne].
    + intros k Hk. by rewrite Hp.
    + intros k v Hin%list_elem_of_singleton. injection Hin as -> ->. congruence.
    + intros Hs k Hk. apply Hall, Hs. by rewrite <- Hp.
    + intros Hx k. rewrite Hp, (Hx k). unfold registered.
      destruct (decide (k = key)) as [-> | Hd]; [by rewrite Hsame | by rewrite Hne].
Qed.

Lemma addMotionValues_outcome (source : Bag) (isStyle : bool) (w : World) :
  ∃ w', addMotionValues source isStyle w = Returns tt w' ∧ added source w w'.
Proof.
  assert (Hreset : ∃ w1, (if isStyle then resetStaticStyle else ret tt) w = Returns tt w1 ∧
                         added [] w w1).
  { destruct isStyle; run; eexists; (split; [reflexivity |]).
    - apply (added_nil _ _ [ResetStaticStyle]); try done. settle.
    - apply (added_nil _ _ []); try done; [symmetry; apply app_nil_r | settle]. }
  destruct Hreset as (w1 & E1 & H1).
  unfold addMotionValues, bind at 1. rewrite E1.
  pose proof (hoare_forIn (fun done w' => added done w w')
    (fun key value =>
       let* foundMotionValue := classify isStyle key value in
       if foundMotionValue then modifyPrev (bagSet key value) else ret tt) source) as Hloop.
  destruct (Hloop) with (w := w1) as ([] & w2 & E2 & H2); [| exact H1 | by exists w2].
  intros done key value rest _ w' Hw'.
  destruct (addMotionValues_entry isStyle key value w') as (w'' & E & H).
  exists tt, w''. split; [exact E |]. by apply (added_app _ _ _ w').
Qed.

Lemma removed_refl (w : World) : removed w w.
Proof.
  split; auto. exists []. split; [symmetry; apply app_nil_r | settle].
Qed.

Lemma removed_trans (w w1 w2 : World) : removed w w1 -> removed w1 w2 -> removed w w2.
Proof.
  intros [(n1 & C1 & N1) V1 S1 X1] [(n2 & C2 & N2) V2 S2 X2]. split; auto.
  - exists (n1 ++ n2). split.
    + unfold callsFrom in *. rewrite C2, C1. by rewrite app_assoc.
    + intros k b [H | H]%elem_of_app; [by apply N1 in H | by apply N2 in H].
  - intros k. destruct (V2 k) as [-> | ->]; auto.
Qed.

Lemma removeStale_outcome (props : Bag) (key : string) (w : World) :
  ∃ w', removeStale props key w = Returns tt w' ∧ removed w w'.
Proof.
  unfold removeStale.
  destruct (negb (isMotionValue (bagGet key props)) && _); run.
  - eexists. split; [reflexivity |]. split; cbn.
    + exists [CallRemoveValue key]. split; [reflexivity | settle].
    + intros k. destruct (decide (k = key)) as [-> | Hne]; simplify_map_eq; auto.
    + intros Hs k [Hne Hk]%bagKeys_bagDelete. unfold registered. cbn.
      rewrite lookup_delete_ne by done. by apply Hs.
    + intros Hx k. cbn [prev]. rewrite bagKeys_bagDelete, (Hx k). unfold registered. cbn.
      destruct (decide (k = key)) as [-> | Hne].
      * rewrite lookup_delete_eq. split; [by intros [? _] | by intros [? ?]].
      * rewrite lookup_delete_ne by done. split; [by intros [_ ?] | done].
  - exists w. split; [reflexivity | apply removed_refl].
Qed.

Lemma removal_outcome (props : Bag) (snapshot : Bag) (w : World) :
  ∃ w', forIn snapshot (fun key _ => removeStale props key) w = Returns tt w' ∧
        removed w w'.
Proof.
  destruct (hoare_forIn_inv (fun w' => removed w w')
              (fun key _ => removeStale props key) snapshot) with (w := w)
    as ([] & w' & E & H); [| apply removed_refl | by exists w'].
  intros key value _ w1 H1.
  destruct (removeStale_outcome props key w1) as (w2 & E & H2).
  exists tt, w2. split; [exact E |]. by apply (removed_trans _ w1).
Qed.

Lemma useMotionValues_outcome (props : Bag) (w : World) :
  ∃ w', useMotionValues props w = Returns tt w' ∧ synchronized props w w'.
Proof.
  unfold useMotionValues. unfold bind at 1, getWorld.
  destruct (removal_outcome props (prev w) w) as (w1 & E1 & [(n1 & C1 & N1) V1 S1 X1]).
  unfold bind at 1. rewrite E1.
  destruct (addMotionValues_outcome props false w1) as (w2 & E2 & H2).
  unfold bind at 1. rewrite E2.
  assert (Hstyle : ∃ w3,
    (if truthy (bagGet "style" props)
     then addMotionValues (ownFields (bagGet "style" props)) true
     else ret tt) w2 = Returns tt w3 ∧
    added (ownFields (bagGet "style" props)) w2 w3).
  { destruct (truthy (bagGet "style" props)) eqn:Hs.
    - apply addMotionValues_outcome.
    - exists w2. split; [reflexivity |].
      destruct (bagGet "style" props); try discriminate; cbn [ownFields];
        (apply (added_nil _ _ []); try done; [symmetry; apply app_nil_r | settle]). }
  destruct Hstyle as (w3 & E3 & H3). exists w3. split; [exact E3 |].
  pose proof (added_app _ _ _ _ _ H2 H3) as [(n2 & C2 & N2) R U P D S X].
  fold (declared props) in *.
  split; auto.
  - exists (n1 ++ n2). split.
    + unfold callsFrom in *. rewrite C2, C1. by rewrite app_assoc.
    + intros k b [H | H]%elem_of_app; [by apply N1 in H | by apply (N2 k b)].
  - intros k Hk. rewrite (U k Hk). apply V1.
Qed.


(** *** Properties of the synchronization pass *)

(** C9: the update branch of [addMotionValues] reads [getValue(key)] only
    after [hasValue(key)] answered true, and the registry answers
    [getValue] with a binding exactly when [hasValue] is true; so the
    non-null use [motion!.set(value)] never meets [undefined]: neither one
    turn of the loop nor a whole pass throws, whatever the props and the
    state of the registry and of the snapshot. *)
Theorem update_reads_existing_binding :
  (∀ key w, ∃ has motion,
      hasValue key w = Returns has w ∧ getValue key w = Returns motion w ∧
      (has = true <-> is_Some motion)) ∧
  (∀ isStyle key value w, ∃ found w', classify isStyle key value w = Returns found w') ∧
  (∀ props w, ∃ w', useMotionValues props w = Returns tt w').
Proof.
  split; [exact hasValue_getValue |]. split.
  - intros isStyle key value w.
    destruct (classify_outcome isStyle key value w) as (w' & new & E & _). eauto.
  - intros props w. destruct (useMotionValues_outcome props w) as (w' & E & _). eauto.
Qed.

(** C8: a pass makes no [addValue] call under a reserved name, and leaves
    such a name unregistered if it was, when every entry under that name, at
    the top level of the props and in the style bag, is a binding. The same
    holds for all props when the name is not in the transform tables. *)
Theorem reserved_name_never_registered (props : Bag) (key : string) (w : World) :
  reservedNames key = true ->
  suppliedAsBinding key (declared props) ∨
    isTransformProp key || isTransformOriginProp key = false ->
  ∃ w' new, useMotionValues props w = Returns tt w' ∧ callsFrom w w' new ∧
    (∀ binding, CallAddValue key binding ∉ new) ∧
    (¬ registered key w -> ¬ registered key w').
Proof.
  intros Hres Hsupplied.
  assert (Hno : ∀ value, (key, value) ∈ declared props -> registers key value = false).
  { intros value Hin. unfold registers.
    destruct (isMotionValue value) eqn:Hmv; [by rewrite Hres |].
    destruct Hsupplied as [Hb | Ht]; [| exact Ht].
    rewrite (Hb value Hin) in Hmv. discriminate. }
  destruct (useMotionValues_outcome props w) as (w' & E & [(new & C & N) U _ _ _]).
  exists w', new. split; [exact E |]. split; [exact C |]. split.
  - intros binding Hin. destruct (N key binding Hin) as (value & Hv & Hr).
    rewrite (Hno value Hv) in Hr. discriminate.
  - unfold registered. intros Hw. destruct (U key Hno) as [-> | ->]; [exact Hw |].
    by intros [? ?].
Qed.


(** Runs a pass over concrete props, given what the tables answer. *)
Ltac evaluate Ht :=
  unfold useMotionValues, addMotionValues, removeStale;
  cbv beta iota zeta delta [forIn classify bind getWorld prev mounted rotated45];
  rewrite ?Ht; cbn [orb]; vm_compute; reflexivity.

(** C1, on the code: the first render of [rotate: 45] creates a binding
    holding 45 and registers it under [rotate], as claimed. The render of
    [rotate: 90] that follows does not call [set(90)] on that binding: the
    removal loop finds [rotate] in the snapshot with a raw value in the
    props, unregisters it, and the addition pass registers a second, new
    binding holding 90. The first binding still holds 45. *)
Theorem raw_transform_update_replaces_binding :
  isTransformProp "rotate" = true ->
  useMotionValues [("rotate"%string, VNum 45)] mounted = Returns tt rotated45 ∧
  ∃ w2, useMotionValues [("rotate"%string, VNum 90)] rotated45 = Returns tt w2 ∧
    calls w2 = calls rotated45 ++
      [CallRemoveValue "rotate"; CallMotionValue (VNum 90) 1; CallAddValue "rotate" 1] ∧
    values (visualElement rotated45) !! "rotate"%string = Some 0%nat ∧
    values (visualElement w2) !! "rotate"%string = Some 1%nat ∧
    bindings w2 !! 0%nat = Some (VNum 45) ∧
    bindings w2 !! 1%nat = Some (VNum 90).
Proof.
  intros Ht. split; [| eexists; split]; [evaluate Ht .. |].
  vm_compute. repeat split; reflexivity.
Qed.

(** C2, on the code: rendering [rotate: 45] a second time is not a no-op.
    The removal loop unregisters [rotate], whose prop is a raw value, and
    the addition pass registers a new binding under it: the registry ends
    with another binding than the one it had. *)
Theorem raw_transform_rerender_mutates_registry :
  isTransformProp "rotate" = true ->
  useMotionValues [("rotate"%string, VNum 45)] mounted = Returns tt rotated45 ∧
  ∃ w2, useMotionValues [("rotate"%string, VNum 45)] rotated45 = Returns tt w2 ∧
    calls w2 = calls rotated45 ++
      [CallRemoveValue "rotate"; CallMotionValue (VNum 45) 1; CallAddValue "rotate" 1] ∧
    values (visualElement rotated45) !! "rotate"%string = Some 0%nat ∧
    values (visualElement w2) !! "rotate"%string = Some 1%nat ∧
    bindings w2 = [VNum 45; VNum 45].
Proof.
  intros Ht. split; [| eexists; split]; [evaluate Ht .. |].
  vm_compute. repeat split; reflexivity.
Qed.

(** *** Further vocabulary *)

(** [key] is a transform or a transform-origin name. *)
Definition transformName (key : string) : bool :=
  isTransformProp key || isTransformOriginProp key.

(** One turn of the loop of [addMotionValues]. *)
Definition visit (isStyle : bool) (key : string) (value : Val) : M unit :=
  let* foundMotionValue := classify isStyle key value in
  if foundMotionValue then modifyPrev (bagSet key value) else ret tt.

(** The removal loop keeps [key]: the props supply a binding under it, at
    the top level or in the style bag. *)
Definition kept (props : Bag) (key : string) : bool :=
  isMotionValue (bagGet key props) ||
  isMotionValue (getField key (bagGet "style" props)).

(** The two halves of [useMotionValues]: the removal loop, and the
    addition passes over the props and over the style bag. *)
Definition removal (props : Bag) : M unit :=
  let* w := getWorld in
  forIn (prev w) (fun key _ => removeStale props key).

Definition additions (props : Bag) : M unit :=
  addMotionValues props false ;;
  if truthy (bagGet "style" props)
  then addMotionValues (ownFields (bagGet "style" props)) true
  else ret tt.

(** A raw value under a name that is no transform name: what the style
    pass copies to the static style. *)
Definition plain (key : string) (value : Val) : bool :=
  negb (isMotionValue value) && negb (transformName key).

(** What in the props accounts for a call of a pass that starts in [w]. *)
Definition justified (props : Bag) (w : World) (c : Call) : Prop :=
  match c with
  | CallRemoveValue key =>
      key ∈ bagKeys (prev w) ∧ kept props key = false
  | CallAddValue key binding =>
      ∃ value, (key, value) ∈ declared props ∧ registers key value = true ∧
               (isMotionValue value = true -> value = VMotionValue binding)
  | CallMotionValue value _ | CallSet _ value =>
      ∃ key, (key, value) ∈ declared props ∧ isMotionValue value = false ∧
             transformName key = true
  | ResetStaticStyle => truthy (bagGet "style" props) = true
  | AssignStaticStyle key value =>
      (key, value) ∈ ownFields (bagGet "style" props) ∧ plain key value = true
  end.

(** Under [key] the registry holds [binding] and the snapshot [value]. *)
Definition holds (key : string) (binding : ObjId) (value : Val) (w : World) : Prop :=
  values (visualElement w) !! key = Some binding ∧
  key ∈ bagKeys (prev w) ∧ bagGet key (prev w) = value.

(** The binding the props supply under [key]: the one in the style bag,
    or else the one at the top level when the style bag registers nothing
    under that name. *)
Definition supplies (props : Bag) (key : string) (binding : ObjId) : Prop :=
  (key, VMotionValue binding) ∈ ownFields (bagGet "style" props) ∨
  ((key, VMotionValue binding) ∈ props ∧
   ∀ value, (key, value) ∈ ownFields (bagGet "style" props) ->
            registers key value = false).

(** The call log of [w'] extends that of [w]; it extends it with [c]
    among the new calls. *)
Definition grown (w w' : World) : Prop := ∃ new, callsFrom w w' new.

Definition logged (c : Call) (w w' : World) : Prop :=
  ∃ new, callsFrom w w' new ∧ c ∈ new.

(** A statement that returns and only appends to the call log. *)
Definition appends (m : M unit) : Prop :=
  ∀ w, ∃ w' extra, m w = Returns tt w' ∧ calls w' = calls w ++ extra.

(** Nothing is registered under [key] and the snapshot does not have it. *)
Definition gone (key : string) (w : World) : Prop :=
  values (visualElement w) !! key = None ∧ key ∉ bagKeys (prev w).

(** The static style the style pass builds on top of [acc]: the plain
    entries, in order, a later one under a name overwriting an earlier one. *)
Definition staticInto (acc : Bag) (source : Bag) : Bag :=
  fold_left (fun acc e => if plain e.1 e.2 then bagSet e.1 e.2 acc else acc)
            source acc.

(** No entry of the props is a raw value under a transform name. *)
Definition bindingsOnly (props : Bag) : Prop :=
  ∀ key value, (key, value) ∈ declared props ->
    isMotionValue value = false -> transformName key = false.

(** A world in which a pass over [props] has nothing left to do: the
    snapshot has only names the props supply a binding under, each binding
    of the props is registered and recorded, and the static style is the
    one the style bag gives. *)
Definition settled (props : Bag) (w : World) : Prop :=
  (∀ key, key ∈ bagKeys (prev w) -> kept props key = true) ∧
  (∀ key binding, (key, VMotionValue binding) ∈ declared props ->
     reservedNames key = false -> holds key binding (VMotionValue binding) w) ∧
  (truthy (bagGet "style" props) = true ->
   staticStyle (visualElement w) = staticInto [] (ownFields (bagGet "style" props))).

(** *** More facts about bags and loops *)

Lemma bagGet_bagSet (key : string) (value : Val) (b : Bag) (k : string) :
  bagGet k (bagSet key value b) = if decide (k = key) then value else bagGet k b.
Proof.
  induction b as [| [k0 v0] rest IH]; cbn.
  - destruct (decide (key = k)), (decide (k = key)); congruence.
  - destruct (decide (k0 = key)) as [-> | Hne]; cbn.
    + destruct (decide (key = k)), (decide (k = key)); congruence.
    + destruct (decide (k0 = k)) as [-> | Hne'].
      * destruct (decide (k = key)); congruence.
      * exact IH.
Qed.

Lemma bagGet_bagDelete (key : string) (b : Bag) (k : string) :
  bagGet k (bagDelete key b) = if decide (k = key) then VUndefined else bagGet k b.
Proof.
  induction b as [| [k0 v0] rest IH]; cbn.
  - by destruct (decide (k = key)).
  - destruct (decide (k0 = key)) as [-> | Hne]; cbn.
    + rewrite IH. destruct (decide (k = key)) as [-> | Hd]; [done |].
      destruct (decide (key = k)); congruence.
    + destruct (decide (k0 = k)) as [-> | Hne']; [| exact IH].
      destruct (decide (k = key)); congruence.
Qed.

Lemma bagGet_absent (key : string) (b : Bag) :
  key ∉ bagKeys b -> bagGet key b = VUndefined.
Proof.
  unfold bagKeys. induction b as [| [k0 v0] rest IH]; cbn; [done |].
  rewrite not_elem_of_cons. intros [Hne Hrest].
  destruct (decide (k0 = key)); [congruence | auto].
Qed.

Lemma bagGet_NoDup (key : string) (value : Val) (b : Bag) :
  NoDup (bagKeys b) -> (key, value) ∈ b -> bagGet key b = value.
Proof.
  unfold bagKeys. induction b as [| [k0 v0] rest IH]; cbn.
  - intros _ H. by apply elem_of_nil in H.
  - rewrite NoDup_cons, elem_of_cons. intros [Hnot Hnd] [Heq | Hin].
    + injection Heq as <- <-. by destruct (decide (key = key)).
    + destruct (decide (k0 = key)) as [-> | Hne]; [| auto].
      exfalso. apply Hnot. apply list_elem_of_fmap. by exists (key, value).
Qed.

Lemma bagSet_id (key : string) (value : Val) (b : Bag) :
  key ∈ bagKeys b -> bagGet key b = value -> bagSet key value b = b.
Proof.
  unfold bagKeys. induction b as [| [k0 v0] rest IH]; cbn.
  - intros H. by apply elem_of_nil in H.
  - rewrite elem_of_cons. destruct (decide (k0 = key)) as [-> | Hne].
    + by intros _ ->.
    + intros [Heq | Hin] Hget; [congruence |]. by rewrite IH.
Qed.

Lemma bagKeys_member (key : string) (value : Val) (b : Bag) :
  (key, value) ∈ b -> key ∈ bagKeys b.
Proof. intros H. unfold bagKeys. apply list_elem_of_fmap. by exists (key, value). Qed.

Lemma forIn_app (b1 b2 : Bag) (body : string -> Val -> M unit) (w : World) :
  forIn (b1 ++ b2) body w = (forIn b1 body ;; forIn b2 body) w.
Proof.
  revert w. induction b1 as [| [key value] rest IH]; intros w; cbn; [done |].
  unfold bind in *. destruct (body key value w) as [[] w1 | e]; [| done].
  apply IH.
Qed.

(** A loop over entries that all keep [I] keeps [I]; the entries under a
    name the bag does not have need not. *)
Lemma forIn_frame (k : string) (I : World -> Prop) (body : string -> Val -> M unit)
    (b : Bag) :
  k ∉ bagKeys b ->
  (∀ key value, key ≠ k -> hoare I (body key value) (fun _ => I)) ->
  hoare I (forIn b body) (fun _ => I).
Proof.
  intros Hk Hbody. apply hoare_forIn_inv. intros key value Hin. apply Hbody.
  intros ->. apply Hk. by apply (bagKeys_member _ value).
Qed.

(** In a loop over distinct names, what the turn of [k] establishes and
    the other turns keep holds at the end. *)
Lemma forIn_entry (k : string) (v : Val) (R Q : World -> Prop)
    (body : string -> Val -> M unit) (b : Bag) :
  NoDup (bagKeys b) -> (k, v) ∈ b ->
  (∀ key value, key ≠ k -> hoare R (body key value) (fun _ => R)) ->
  hoare R (body k v) (fun _ => Q) ->
  (∀ key value, key ≠ k -> hoare Q (body key value) (fun _ => Q)) ->
  hoare R (forIn b body) (fun _ => Q).
Proof.
  intros Hnd Hin HR Hkv HQ.
  apply list_elem_of_split in Hin as (b1 & b2 & ->).
  unfold bagKeys in Hnd. rewrite fmap_app, fmap_cons in Hnd. cbn in Hnd.
  apply NoDup_app in Hnd as (_ & Hdisj & [Hk2 _]%NoDup_cons).
  assert (Hk1 : k ∉ bagKeys b1).
  { intros H1. apply (Hdisj k H1). apply elem_of_cons. by left. }
  intros w Hw. rewrite forIn_app. cbn [forIn].
  destruct (forIn_frame k R body b1 Hk1 HR w Hw) as ([] & w1 & E1 & H1).
  unfold bind at 1. rewrite E1.
  destruct (Hkv w1 H1) as ([] & w2 & E2 & H2).
  unfold bind at 1. rewrite E2.
  apply (forIn_frame k Q body b2 Hk2 HQ w2 H2).
Qed.

(** *** One turn of the addition loop, exactly *)

Lemma visit_binding (isStyle : bool) (key : string) (binding : ObjId) (w : World) :
  visit isStyle key (VMotionValue binding) w =
    Returns tt
      (if reservedNames key then w
       else {| visualElement :=
                 {| values := <[key := binding]> (values (visualElement w));
                    staticStyle := staticStyle (visualElement w) |};
               bindings := bindings w;
               prev := bagSet key (VMotionValue binding) (prev w);
               calls := calls w ++ [CallAddValue key binding] |}).
Proof.
  unfold visit. cbn [classify]. by destruct (reservedNames key); run.
Qed.

Lemma visit_transform (isStyle : bool) (key : string) (value : Val) (w : World) :
  isMotionValue value = false -> transformName key = true ->
  visit isStyle key value w =
    Returns tt
      match values (visualElement w) !! key with
      | None =>
          {| visualElement :=
               {| values := <[key := length (bindings w)]> (values (visualElement w));
                  staticStyle := staticStyle (visualElement w) |};
             bindings := bindings w ++ [value];
             prev := bagSet key value (prev w);
             calls := calls w ++ [CallMotionValue value (length (bindings w));
                                  CallAddValue key (length (bindings w))] |}
      | Some binding =>
          if sameValue value (bagGet key (prev w))
          then {| visualElement := visualElement w; bindings := bindings w;
                  prev := bagSet key value (prev w); calls := calls w |}
          else {| visualElement := visualElement w;
                  bindings := <[binding := value]> (bindings w);
                  prev := bagSet key value (prev w);
                  calls := calls w ++ [CallSet binding value] |}
      end.
Proof.
  intros Hmv Ht. unfold visit, transformName in *. rewrite (classify_raw _ _ _ Hmv), Ht.
  run. destruct (values (visualElement w) !! key) as [binding |] eqn:Hv.
  - rewrite bool_decide_eq_true_2 by eauto. cbn [negb].
    destruct (sameValue value (bagGet key (prev w))); run; [done |].
    cbn [negb]. cbv beta. by rewrite Hv.
  - rewrite bool_decide_eq_false_2 by (by intros [? ?]). cbn [negb]. run.
    by rewrite <- app_assoc.
Qed.

Lemma visit_plain (isStyle : bool) (key : string) (value : Val) (w : World) :
  isMotionValue value = false -> transformName key = false ->
  visit isStyle key value w =
    Returns tt
      (if isStyle
       then {| visualElement :=
                 {| values := values (visualElement w);
                    staticStyle := bagSet key value (staticStyle (visualElement w)) |};
               bindings := bindings w; prev := prev w;
               calls := calls w ++ [AssignStaticStyle key value] |}
       else w).
Proof.
  intros Hmv Ht. unfold visit, transformName in *. rewrite (classify_raw _ _ _ Hmv), Ht.
  by destruct isStyle; run.
Qed.

(** A value is a binding or it is not. *)
Lemma binding_or_raw (value : Val) :
  (∃ binding, value = VMotionValue binding) ∨ isMotionValue value = false.
Proof. destruct value; eauto. Qed.

(** *** The pass, stage by stage *)

Lemma truthy_styleIsValue (style : Val) (key : string) :
  truthy (jsAnd style (VBool (isMotionValue (getField key style)))) =
    isMotionValue (getField key style).
Proof.
  unfold jsAnd. destruct (truthy style) eqn:Hs; [done |].
  rewrite Hs. by destruct style.
Qed.

Lemma removeStale_exact (props : Bag) (key : string) (w : World) :
  removeStale props key w =
    Returns tt
      (if kept props key then w
       else {| visualElement :=
                 {| values := delete key (values (visualElement w));
                    staticStyle := staticStyle (visualElement w) |};
               bindings := bindings w;
               prev := bagDelete key (prev w);
               calls := calls w ++ [CallRemoveValue key] |}).
Proof.
  unfold removeStale, kept. rewrite truthy_styleIsValue, <- negb_orb.
  by destruct (isMotionValue (bagGet key props) || _); run.
Qed.

Lemma useMotionValues_split (props : Bag) (w : World) :
  useMotionValues props w = (removal props ;; additions props) w.
Proof.
  unfold useMotionValues, removal, additions, bind, getWorld.
  by destruct (forIn (prev w) _ w).
Qed.

Lemma addMotionValues_visit (source : Bag) (isStyle : bool) (w : World) :
  addMotionValues source isStyle w =
    ((if isStyle then resetStaticStyle else ret tt) ;; forIn source (visit isStyle)) w.
Proof. reflexivity. Qed.

(** The rule of the removal loop: it visits the names of the snapshot it
    starts with. *)
Lemma hoare_removal (I : World -> Prop) (props : Bag) (w : World) :
  (∀ key, key ∈ bagKeys (prev w) -> hoare I (removeStale props key) (fun _ => I)) ->
  I w -> ∃ w1, removal props w = Returns tt w1 ∧ I w1.
Proof.
  intros Hbody Hw. unfold removal, bind at 1, getWorld.
  destruct (hoare_forIn_inv I (fun key _ => removeStale props key) (prev w)) with (w := w)
    as ([] & w1 & E & H1); [| exact Hw | by exists w1].
  intros key value Hin. apply Hbody. by apply (bagKeys_member _ value).
Qed.

(** The rule of the addition passes. *)
Lemma hoare_additions (I : World -> Prop) (props : Bag) :
  (∀ key value, (key, value) ∈ props -> hoare I (visit false key value) (fun _ => I)) ->
  (truthy (bagGet "style" props) = true -> hoare I resetStaticStyle (fun _ => I)) ->
  (∀ key value, (key, value) ∈ ownFields (bagGet "style" props) ->
     hoare I (visit true key value) (fun _ => I)) ->
  hoare I (additions props) (fun _ => I).
Proof.
  intros Htop Hreset Hstyle. unfold additions.
  eapply hoare_bind.
  - intros w Hw. rewrite addMotionValues_visit. cbn [ret bind].
    apply (hoare_forIn_inv I (visit false) props Htop w Hw).
  - intros []. destruct (truthy (bagGet "style" props)) eqn:Hs.
    + intros w Hw. rewrite addMotionValues_visit.
      apply (hoare_bind I resetStaticStyle (fun _ => I)); [auto | | exact Hw].
      intros []. by apply hoare_forIn_inv.
    + by apply hoare_ret.
Qed.

(** The rule of a whole pass. *)
Lemma hoare_useMotionValues (I : World -> Prop) (props : Bag) (w : World) :
  (∀ key, key ∈ bagKeys (prev w) -> hoare I (removeStale props key) (fun _ => I)) ->
  (∀ key value, (key, value) ∈ props -> hoare I (visit false key value) (fun _ => I)) ->
  (truthy (bagGet "style" props) = true -> hoare I resetStaticStyle (fun _ => I)) ->
  (∀ key value, (key, value) ∈ ownFields (bagGet "style" props) ->
     hoare I (visit true key value) (fun _ => I)) ->
  I w -> ∃ w', useMotionValues props w = Returns tt w' ∧ I w'.
Proof.
  intros Hrem Htop Hreset Hstyle Hw. rewrite useMotionValues_split.
  destruct (hoare_removal I props w Hrem Hw) as (w1 & E1 & H1).
  destruct (hoare_additions I props Htop Hreset Hstyle w1 H1) as ([] & w' & E & H').
  exists w'. unfold bind. rewrite E1. by split.
Qed.

(** *** What accounts for each call *)

(** The calls made since [w] all satisfy [P]. *)
Definition callsSince (P : Call -> Prop) (w w' : World) : Prop :=
  ∃ new, callsFrom w w' new ∧ Forall P new.

Lemma callsSince_refl (P : Call -> Prop) (w : World) : callsSince P w w.
Proof. exists []. split; [symmetry; apply app_nil_r | constructor]. Qed.

Lemma callsSince_more (P : Call -> Prop) (w w1 w2 : World) (extra : list Call) :
  callsSince P w w1 -> calls w2 = calls w1 ++ extra -> Forall P extra ->
  callsSince P w w2.
Proof.
  intros (new & C & F) E Fx. exists (new ++ extra). split.
  - unfold callsFrom in *. by rewrite E, C, app_assoc.
  - by apply Forall_app.
Qed.

Lemma visit_justified (props : Bag) (w0 : World) (isStyle : bool) (key : string)
    (value : Val) :
  (key, value) ∈ declared props ->
  (isStyle = true -> (key, value) ∈ ownFields (bagGet "style" props)) ->
  hoare (callsSince (justified props w0) w0) (visit isStyle key value)
        (fun _ => callsSince (justified props w0) w0).
Proof.
  intros Hin Hstyle w Hw.
  destruct (binding_or_raw value) as [[binding ->] | Hmv].
  - rewrite visit_binding. eexists tt, _. split; [reflexivity |].
    destruct (reservedNames key) eqn:Hr; [exact Hw |].
    eapply callsSince_more; [exact Hw | reflexivity |].
    repeat constructor. exists (VMotionValue binding). unfold registers. cbn.
    by rewrite Hr.
  - destruct (transformName key) eqn:Ht.
    + rewrite (visit_transform _ _ _ _ Hmv Ht). eexists tt, _. split; [reflexivity |].
      assert (Hraw : ∃ k, (k, value) ∈ declared props ∧ isMotionValue value = false ∧
                          transformName k = true) by eauto.
      destruct (values (visualElement w) !! key) as [binding |].
      * destruct (sameValue value (bagGet key (prev w))).
        -- eapply callsSince_more; [exact Hw | symmetry; apply app_nil_r | constructor].
        -- eapply callsSince_more; [exact Hw | reflexivity |]. by repeat constructor.
      * eapply callsSince_more; [exact Hw | reflexivity |].
        repeat constructor; [exact Hraw |].
        exists value. unfold registers. rewrite Hmv. split; [done |].
        split; [exact Ht | discriminate].
    + rewrite (visit_plain _ _ _ _ Hmv Ht). eexists tt, _. split; [reflexivity |].
      destruct isStyle; [| exact Hw].
      eapply callsSince_more; [exact Hw | reflexivity |].
      repeat constructor; [by apply Hstyle |]. unfold plain. by rewrite Hmv, Ht.
Qed.

(** X1: every call a pass makes is accounted for by the props. It
    unregisters only names of the snapshot under which the props supply no
    binding; it registers only what an entry of the props registers, and a
    binding entry registers that very binding; it creates or sets a binding
    only for a raw value under a transform name; it writes to the static
    style only plain entries of the style bag. *)
Theorem calls_are_justified (props : Bag) (w : World) :
  ∃ w' new, useMotionValues props w = Returns tt w' ∧ callsFrom w w' new ∧
    ∀ c, c ∈ new -> justified props w c.
Proof.
  destruct (hoare_useMotionValues (callsSince (justified props w) w) props w)
    as (w' & E & new & C & F).
  - intros key Hkey w1 H1. eexists tt, _. rewrite removeStale_exact.
    split; [reflexivity |]. destruct (kept props key) eqn:Hk; [exact H1 |].
    eapply callsSince_more; [exact H1 | reflexivity |]. by repeat constructor.
  - intros key value Hin. apply visit_justified; [| discriminate].
    apply elem_of_app. by left.
  - intros Hs w1 H1. eexists tt, _. split; [reflexivity |].
    eapply callsSince_more; [exact H1 | reflexivity |]. by repeat constructor.
  - intros key value Hin. apply visit_justified; [| done].
    apply elem_of_app. by right.
  - apply callsSince_refl.
  - exists w', new. split; [exact E |]. split; [exact C |].
    by apply Forall_forall.
Qed.

(** *** One name through a pass *)

Lemma visit_returns (isStyle : bool) (key : string) (value : Val) (w : World) :
  ∃ w', visit isStyle key value w = Returns tt w'.
Proof.
  destruct (binding_or_raw value) as [[binding ->] | Hmv].
  - rewrite visit_binding. eauto.
  - destruct (transformName key) eqn:Ht.
    + rewrite (visit_transform _ _ _ _ Hmv Ht). eauto.
    + rewrite (visit_plain _ _ _ _ Hmv Ht). eauto.
Qed.

(** A turn for another name leaves what is held under [key]. *)
Lemma holds_other (key : string) (binding : ObjId) (held : Val)
    (isStyle : bool) (key' : string) (value' : Val) :
  key' ≠ key ->
  hoare (holds key binding held) (visit isStyle key' value')
        (fun _ => holds key binding held).
Proof.
  intros Hne w (Hv & Hk & Hg).
  assert (Hset : ∀ v, holds key binding held
    {| visualElement := visualElement w; bindings := bindings w;
       prev := bagSet key' v (prev w); calls := calls w |}).
  { intros v. repeat split; cbn; [done | |].
    - apply bagKeys_bagSet. by right.
    - rewrite bagGet_bagSet. by destruct (decide (key = key')); [congruence |]. }
  destruct (binding_or_raw value') as [[b' ->] | Hmv].
  - rewrite visit_binding. eexists tt, _. split; [reflexivity |].
    destruct (reservedNames key'); [done |].
    destruct (Hset (VMotionValue b')) as (_ & Hk' & Hg').
    repeat split; cbn; [by rewrite lookup_insert_ne | done | done].
  - destruct (transformName key') eqn:Ht.
    + rewrite (visit_transform _ _ _ _ Hmv Ht). eexists tt, _. split; [reflexivity |].
      destruct (Hset value') as (_ & Hk' & Hg').
      destruct (values (visualElement w) !! key') as [b' |].
      * by destruct (sameValue value' (bagGet key' (prev w))).
      * repeat split; cbn; [by rewrite lookup_insert_ne | done | done].
    + rewrite (visit_plain _ _ _ _ Hmv Ht). eexists tt, _. split; [reflexivity |].
      by destruct isStyle.
Qed.

(** A turn that registers nothing leaves the registry and the snapshot. *)
Lemma visit_inert (isStyle : bool) (key : string) (value : Val) (w : World) :
  registers key value = false ->
  ∃ w', visit isStyle key value w = Returns tt w' ∧
    values (visualElement w') = values (visualElement w) ∧
    prev w' = prev w ∧ bindings w' = bindings w.
Proof.
  unfold registers. intros Hr.
  destruct (binding_or_raw value) as [[binding ->] | Hmv].
  - rewrite visit_binding. cbn in Hr. apply negb_false_iff in Hr. rewrite Hr. eauto.
  - rewrite Hmv in Hr. rewrite (visit_plain _ _ _ _ Hmv Hr).
    eexists. split; [reflexivity |]. by destruct isStyle.
Qed.

Lemma holds_inert (key : string) (binding : ObjId) (held : Val)
    (isStyle : bool) (key' : string) (value' : Val) :
  registers key' value' = false ->
  hoare (holds key binding held) (visit isStyle key' value')
        (fun _ => holds key binding held).
Proof.
  intros Hr w (Hv & Hk & Hg).
  destruct (visit_inert isStyle key' value' w Hr) as (w' & E & Ev & Ep & _).
  exists tt, w'. split; [exact E |]. unfold holds. by rewrite Ev, Ep.
Qed.

Lemma holds_reset (key : string) (binding : ObjId) (held : Val) :
  hoare (holds key binding held) resetStaticStyle (fun _ => holds key binding held).
Proof. intros w Hw. eexists tt, _. split; [reflexivity | exact Hw]. Qed.

(** The turn of a binding under a name that is not reserved. *)
Lemma holds_binding (key : string) (binding : ObjId) (isStyle : bool) (w : World) :
  reservedNames key = false ->
  ∃ w', visit isStyle key (VMotionValue binding) w = Returns tt w' ∧
        holds key binding (VMotionValue binding) w'.
Proof.
  intros Hr. rewrite visit_binding, Hr. eexists. split; [reflexivity |].
  repeat split; cbn.
  - by rewrite lookup_insert_eq.
  - apply bagKeys_bagSet. by left.
  - rewrite bagGet_bagSet. by destruct (decide (key = key)).
Qed.

Lemma additions_stages (props : Bag) (w : World) :
  additions props w =
    (forIn props (visit false) ;;
     if truthy (bagGet "style" props)
     then resetStaticStyle ;; forIn (ownFields (bagGet "style" props)) (visit true)
     else ret tt) w.
Proof.
  reflexivity.
Qed.

Lemma removal_returns (props : Bag) (w : World) :
  ∃ w1, removal props w = Returns tt w1.
Proof.
  destruct (hoare_removal (fun _ => True) props w) as (w1 & E & _); [| done | eauto].
  intros key _ w1 _. rewrite removeStale_exact. eauto.
Qed.

Lemma ownFields_truthy (style : Val) (key : string) (value : Val) :
  (key, value) ∈ ownFields style -> truthy style = true.
Proof. destruct style; cbn; intros H; try done; by apply elem_of_nil in H. Qed.

Lemma supplied_binding_holds (props : Bag) (key : string)
    (binding : ObjId) (w : World) :
  NoDup (bagKeys props) ->
  NoDup (bagKeys (ownFields (bagGet "style" props))) ->
  reservedNames key = false ->
  supplies props key binding ->
  ∃ w', useMotionValues props w = Returns tt w' ∧
    holds key binding (VMotionValue binding) w'.
Proof.
  intros Hnd Hnds Hr Hsup.
  destruct (removal_returns props w) as (w1 & E1).
  cut (∃ w', additions props w1 = Returns tt w' ∧
             holds key binding (VMotionValue binding) w').
  { intros (w' & E & H). exists w'.
    rewrite useMotionValues_split. unfold bind. by rewrite E1. }
  rewrite additions_stages.
  assert (Hany : ∀ I isStyle k v,
            (∀ w0, I w0) -> hoare I (visit isStyle k v) (fun _ => I)).
  { intros I isStyle k v HI w0 _. destruct (visit_returns isStyle k v w0) as (w0' & E0).
    exists tt, w0'. auto. }
  destruct Hsup as [Hin | [Hin Hno]].
  - destruct (hoare_forIn_inv (fun _ => True) (visit false) props) with (w := w1)
      as ([] & w2 & E2 & _); [intros; by apply Hany | done |].
    unfold bind at 1. rewrite E2. rewrite (ownFields_truthy _ _ _ Hin).
    unfold bind at 1. cbn [resetStaticStyle bind log modifyVisualElement].
    match goal with |- ∃ w', forIn _ _ ?w3 = _ ∧ _ =>
      destruct (forIn_entry key (VMotionValue binding) (fun _ => True)
                  (holds key binding (VMotionValue binding)) (visit true)
                  (ownFields (bagGet "style" props)) Hnds Hin) with (w := w3)
        as ([] & w' & E & H)
    end; [intros; by apply Hany | | | done | by exists w'].
    + intros w0 _. destruct (holds_binding key binding true w0 Hr) as (w0' & E0 & H0).
      by exists tt, w0'.
    + intros k v Hne. by apply holds_other.
  - destruct (forIn_entry key (VMotionValue binding) (fun _ => True)
                (holds key binding (VMotionValue binding)) (visit false) props Hnd Hin)
      with (w := w1) as ([] & w2 & E2 & H2); [intros; by apply Hany | | | done |].
    + intros w0 _. destruct (holds_binding key binding false w0 Hr) as (w0' & E0 & H0).
      by exists tt, w0'.
    + intros k v Hne. by apply holds_other.
    + unfold bind at 1. rewrite E2.
      destruct (truthy (bagGet "style" props)); [| by exists w2].
      destruct (holds_reset key binding (VMotionValue binding) w2 H2)
        as ([] & w3 & E3 & H3).
      unfold bind at 1. rewrite E3.
      destruct (hoare_forIn_inv (holds key binding (VMotionValue binding)) (visit true)
                  (ownFields (bagGet "style" props))) with (w := w3)
        as ([] & w' & E & H); [| exact H3 | by exists w'].
      intros k v Hkv. destruct (decide (k = key)) as [-> | Hne].
      * apply holds_inert. by apply Hno.
      * by apply holds_other.
Qed.

(** X2: the binding a pass leaves registered under a name is the one the
    props supply under it, the style bag taking precedence over the top
    level, and the snapshot records that binding. *)
Theorem supplied_binding_is_registered (props : Bag) (key : string)
    (binding : ObjId) (w : World) :
  NoDup (bagKeys props) ->
  NoDup (bagKeys (ownFields (bagGet "style" props))) ->
  reservedNames key = false ->
  supplies props key binding ->
  ∃ w', useMotionValues props w = Returns tt w' ∧
    values (visualElement w') !! key = Some binding ∧
    bagGet key (prev w') = VMotionValue binding.
Proof.
  intros Hnd Hnds Hr Hsup.
  destruct (supplied_binding_holds props key binding w Hnd Hnds Hr Hsup)
    as (w' & E & Hv & _ & Hg).
  by exists w'.
Qed.

(** *** The call log through a pass *)

Lemma hoare_conj {A} (P1 P2 : World -> Prop) (m : M A) (Q1 Q2 : A -> World -> Prop) :
  hoare P1 m Q1 -> hoare P2 m Q2 ->
  hoare (fun w => P1 w ∧ P2 w) m (fun a w => Q1 a w ∧ Q2 a w).
Proof.
  intros H1 H2 w [Hw1 Hw2].
  destruct (H1 w Hw1) as (a & w' & E & HQ1), (H2 w Hw2) as (a' & w'' & E' & HQ2).
  rewrite E in E'. injection E' as <- <-. by exists a, w'.
Qed.

Lemma hoare_pre {A} (P P' : World -> Prop) (m : M A) (Q : A -> World -> Prop) :
  (∀ w, P w -> P' w) -> hoare P' m Q -> hoare P m Q.
Proof. intros HP Hm w Hw. apply Hm. auto. Qed.

Lemma appends_visit (isStyle : bool) (key : string) (value : Val) :
  appends (visit isStyle key value).
Proof.
  intros w. destruct (binding_or_raw value) as [[binding ->] | Hmv].
  - rewrite visit_binding. destruct (reservedNames key).
    + exists w, []. by rewrite app_nil_r.
    + by eexists _, [_].
  - destruct (transformName key) eqn:Ht.
    + rewrite (visit_transform _ _ _ _ Hmv Ht).
      destruct (values (visualElement w) !! key) as [binding |].
      * destruct (sameValue value (bagGet key (prev w))).
        -- eexists _, []. cbn. by rewrite app_nil_r.
        -- by eexists _, [_].
      * by eexists _, [_; _].
    + rewrite (visit_plain _ _ _ _ Hmv Ht). destruct isStyle.
      * by eexists _, [_].
      * exists w, []. by rewrite app_nil_r.
Qed.

Lemma appends_removeStale (props : Bag) (key : string) :
  appends (removeStale props key).
Proof.
  intros w. rewrite removeStale_exact. destruct (kept props key).
  - exists w, []. by rewrite app_nil_r.
  - by eexists _, [_].
Qed.

Lemma appends_reset : appends resetStaticStyle.
Proof. intros w. by eexists _, [_]. Qed.

Lemma grown_appends (w0 : World) (m : M unit) :
  appends m -> hoare (grown w0) m (fun _ => grown w0).
Proof.
  intros Hm w (new & C). destruct (Hm w) as (w' & extra & E & Ec).
  exists tt, w'. split; [exact E |]. exists (new ++ extra).
  unfold callsFrom in *. by rewrite Ec, C, app_assoc.
Qed.

Lemma logged_appends (c : Call) (w0 : World) (m : M unit) :
  appends m -> hoare (logged c w0) m (fun _ => logged c w0).
Proof.
  intros Hm w (new & C & Hin). destruct (Hm w) as (w' & extra & E & Ec).
  exists tt, w'. split; [exact E |]. exists (new ++ extra). split.
  - unfold callsFrom in *. by rewrite Ec, C, app_assoc.
  - apply elem_of_app. by left.
Qed.

Lemma grown_refl (w : World) : grown w w.
Proof. exists []. symmetry. apply app_nil_r. Qed.

Lemma removal_grown (props : Bag) (w : World) :
  ∃ w1, removal props w = Returns tt w1 ∧ grown w w1.
Proof.
  apply hoare_removal; [| apply grown_refl].
  intros key _. apply grown_appends, appends_removeStale.
Qed.

(** X3: when a name has a binding at the top level of the props and a raw
    value in the style bag, and is a transform name, the pass keeps the
    binding registered, calls [set] on it with the raw value, and records
    the raw value in the snapshot. *)
Theorem style_value_updates_binding (props : Bag) (key : string) (binding : ObjId)
    (value : Val) (w : World) :
  NoDup (bagKeys props) ->
  NoDup (bagKeys (ownFields (bagGet "style" props))) ->
  reservedNames key = false -> transformName key = true ->
  (key, VMotionValue binding) ∈ props ->
  (key, value) ∈ ownFields (bagGet "style" props) ->
  isMotionValue value = false ->
  ∃ w' new, useMotionValues props w = Returns tt w' ∧ callsFrom w w' new ∧
    CallSet binding value ∈ new ∧
    values (visualElement w') !! key = Some binding ∧
    bagGet key (prev w') = value.
Proof.
  intros Hnd Hnds Hr Ht Htop Hstyle Hmv.
  destruct (removal_grown props w) as (w1 & E1 & G1).
  cut (∃ w', additions props w1 = Returns tt w' ∧
             holds key binding value w' ∧ logged (CallSet binding value) w w').
  { intros (w' & E & (Hv & _ & Hg) & new & C & Hin). exists w', new.
    rewrite useMotionValues_split. unfold bind. by rewrite E1. }
  rewrite additions_stages.
  destruct (forIn_entry key (VMotionValue binding) (grown w)
              (fun w0 => holds key binding (VMotionValue binding) w0 ∧ grown w w0)
              (visit false) props Hnd Htop) with (w := w1)
    as ([] & w2 & E2 & H2 & G2); [| | | exact G1 |].
  - intros k v _. apply grown_appends, appends_visit.
  - intros w0 G0. destruct (holds_binding key binding false w0 Hr) as (w0' & E0 & H0).
    exists tt, w0'. split; [exact E0 |]. split; [exact H0 |].
    destruct (grown_appends w _ (appends_visit false key (VMotionValue binding)) w0 G0)
      as ([] & w0'' & E0' & G0'). congruence.
  - intros k v Hne. apply hoare_conj; [by apply holds_other |].
    apply grown_appends, appends_visit.
  - unfold bind at 1. rewrite E2. rewrite (ownFields_truthy _ _ _ Hstyle).
    unfold bind at 1. cbn [resetStaticStyle bind log modifyVisualElement].
    match goal with |- ∃ w', forIn _ _ ?w3 = _ ∧ _ =>
      destruct (forIn_entry key value
                  (fun w0 => holds key binding (VMotionValue binding) w0 ∧ grown w w0)
                  (fun w0 => holds key binding value w0 ∧
                             logged (CallSet binding value) w w0)
                  (visit true) (ownFields (bagGet "style" props)) Hnds Hstyle)
        with (w := w3) as ([] & w' & E & H)
    end; [| | | | by exists w'].
    + intros k v Hne. apply hoare_conj; [by apply holds_other |].
      apply grown_appends, appends_visit.
    + intros w0 [(Hv & Hk & Hg) (new & C)].
      rewrite (visit_transform _ _ _ _ Hmv Ht), Hv, Hg.
      assert (Hdiff : sameValue value (VMotionValue binding) = false)
        by (by destruct value).
      rewrite Hdiff. eexists tt, _. split; [reflexivity |]. split.
      * repeat split; cbn; [done | apply bagKeys_bagSet; by left |].
        rewrite bagGet_bagSet. by destruct (decide (key = key)).
      * exists (new ++ [CallSet binding value]). split.
        -- unfold callsFrom in *. cbn. by rewrite C, app_assoc.
        -- apply elem_of_app. right. by apply list_elem_of_singleton.
    + intros k v Hne. apply hoare_conj; [by apply holds_other |].
      apply logged_appends, appends_visit.
    + split.
      * destruct H2 as (Hv & Hk & Hg). by repeat split.
      * destruct G2 as (new & C). exists (new ++ [ResetStaticStyle]).
        unfold callsFrom in *. cbn. by rewrite C, app_assoc.
Qed.

(** *** Names the props no longer supply *)

(** A turn for another name leaves the registry and the snapshot at [key]. *)
Lemma visit_frame (key : string) (isStyle : bool) (key' : string) (value' : Val)
    (w : World) :
  key' ≠ key ->
  ∃ w', visit isStyle key' value' w = Returns tt w' ∧
    values (visualElement w') !! key = values (visualElement w) !! key ∧
    (key ∈ bagKeys (prev w') <-> key ∈ bagKeys (prev w)) ∧
    bagGet key (prev w') = bagGet key (prev w).
Proof.
  intros Hne.
  assert (Hk : ∀ v, key ∈ bagKeys (bagSet key' v (prev w)) <-> key ∈ bagKeys (prev w)).
  { intros v. rewrite bagKeys_bagSet. split; [intros [? | ?]; congruence | by right]. }
  assert (Hg : ∀ v, bagGet key (bagSet key' v (prev w)) = bagGet key (prev w)).
  { intros v. rewrite bagGet_bagSet. by destruct (decide (key = key')); [congruence |]. }
  assert (Hfin : ∀ w',
    values (visualElement w') !! key = values (visualElement w) !! key ->
    (prev w' = prev w ∨ ∃ v, prev w' = bagSet key' v (prev w)) ->
    values (visualElement w') !! key = values (visualElement w) !! key ∧
    (key ∈ bagKeys (prev w') <-> key ∈ bagKeys (prev w)) ∧
    bagGet key (prev w') = bagGet key (prev w)).
  { intros w' Ev [-> | [v ->]]; [done |]. split; [done |]. split; [apply Hk | apply Hg]. }
  destruct (binding_or_raw value') as [[b' ->] | Hmv].
  - rewrite visit_binding. eexists. split; [reflexivity |].
    destruct (reservedNames key'); apply Hfin; cbn; eauto.
    by rewrite lookup_insert_ne.
  - destruct (transformName key') eqn:Ht.
    + rewrite (visit_transform _ _ _ _ Hmv Ht). eexists. split; [reflexivity |].
      destruct (values (visualElement w) !! key') as [b' |].
      * destruct (sameValue value' (bagGet key' (prev w))); apply Hfin; cbn; eauto.
      * apply Hfin; cbn; eauto. by rewrite lookup_insert_ne.
    + rewrite (visit_plain _ _ _ _ Hmv Ht). eexists. split; [reflexivity |].
      destruct isStyle; apply Hfin; cbn; eauto.
Qed.

Lemma gone_visit (key : string) (isStyle : bool) (key' : string) (value' : Val) :
  (key' = key -> registers key' value' = false) ->
  hoare (gone key) (visit isStyle key' value') (fun _ => gone key).
Proof.
  intros Hr w [Hv Hk]. destruct (decide (key' = key)) as [Heq | Hne].
  - destruct (visit_inert isStyle key' value' w (Hr Heq)) as (w' & E & Ev & Ep & _).
    exists tt, w'. split; [exact E |]. unfold gone. by rewrite Ev, Ep.
  - destruct (visit_frame key isStyle key' value' w Hne) as (w' & E & Ev & Ek & _).
    exists tt, w'. split; [exact E |]. unfold gone. rewrite Ev, Ek. by split.
Qed.

(** X4: a name of the snapshot under which the props supply no binding
    any more, and under which no entry of the props registers anything, is
    unregistered by the pass: [removeValue] is called for it, and it is in
    neither the registry nor the snapshot afterwards. *)
Theorem dropped_binding_is_unregistered (props : Bag) (key : string) (w : World) :
  key ∈ bagKeys (prev w) ->
  kept props key = false ->
  (∀ value, (key, value) ∈ declared props -> registers key value = false) ->
  ∃ w' new, useMotionValues props w = Returns tt w' ∧ callsFrom w w' new ∧
    CallRemoveValue key ∈ new ∧
    values (visualElement w') !! key = None ∧
    key ∉ bagKeys (prev w').
Proof.
  intros Hin Hkept Hno.
  set (J := fun w1 => gone key w1 ∧ logged (CallRemoveValue key) w w1).
  assert (Hrem : ∃ w1, removal props w = Returns tt w1 ∧ J w1).
  { unfold removal, bind at 1, getWorld.
    destruct (hoare_forIn
      (fun done w1 => grown w w1 ∧ (key ∈ bagKeys done -> J w1))
      (fun k _ => removeStale props k) (prev w)) with (w := w)
      as ([] & w1 & E & _ & H1).
    - intros done k v rest _ w1 [G1 H1]. rewrite removeStale_exact.
      eexists tt, _. split; [reflexivity |].
      unfold bagKeys. rewrite fmap_app, elem_of_app. cbn.
      rewrite list_elem_of_singleton.
      destruct (decide (k = key)) as [-> | Hne].
      + rewrite Hkept. destruct G1 as (new & C). split.
        * exists (new ++ [CallRemoveValue key]).
          unfold callsFrom in *. cbn. by rewrite C, app_assoc.
        * intros _. split.
          -- split; cbn; [by rewrite lookup_delete_eq |].
             rewrite bagKeys_bagDelete. by intros [? _].
          -- exists (new ++ [CallRemoveValue key]). split.
             ++ unfold callsFrom in *. cbn. by rewrite C, app_assoc.
             ++ apply elem_of_app. right. by apply list_elem_of_singleton.
      + destruct (kept props k).
        * split; [exact G1 |]. intros [Hd | Heq]; [by apply H1 | congruence].
        * destruct G1 as (new & C). split.
          -- exists (new ++ [CallRemoveValue k]).
             unfold callsFrom in *. cbn. by rewrite C, app_assoc.
          -- intros [Hd | Heq]; [| congruence].
             destruct (H1 Hd) as [[Hv Hk] (new' & C' & Hin')]. split.
             ++ split; cbn; [by rewrite lookup_delete_ne |].
                rewrite bagKeys_bagDelete. by intros [_ ?].
             ++ exists (new' ++ [CallRemoveValue k]). split.
                ** unfold callsFrom in *. cbn. by rewrite C', app_assoc.
                ** apply elem_of_app. by left.
    - split; [apply grown_refl |]. intros H. by apply elem_of_nil in H.
    - exists w1. split; [exact E | by apply H1]. }
  destruct Hrem as (w1 & E1 & H1).
  destruct (hoare_additions J props) with (w := w1)
    as ([] & w' & E & [Hv Hk] & new & C & Hnew); [| | | exact H1 |].
  - intros k v Hkv. apply hoare_conj; [| apply logged_appends, appends_visit].
    apply gone_visit. intros ->. apply Hno, elem_of_app. by left.
  - intros _. apply hoare_conj; [| apply logged_appends, appends_reset].
    intros w0 H0. eexists tt, _. split; [reflexivity | exact H0].
  - intros k v Hkv. apply hoare_conj; [| apply logged_appends, appends_visit].
    apply gone_visit. intros ->. apply Hno, elem_of_app. by right.
  - exists w', new. rewrite useMotionValues_split. unfold bind. by rewrite E1.
Qed.

(** *** The static style *)

Lemma staticInto_keys (source acc : Bag) (k : string) :
  k ∈ bagKeys (staticInto acc source) <->
  k ∈ bagKeys acc ∨ ∃ v, (k, v) ∈ source ∧ plain k v = true.
Proof.
  revert acc. induction source as [| [k0 v0] rest IH]; intros acc; cbn.
  - split; [by left | intros [? | (v & Hin & _)]; [done | by apply elem_of_nil in Hin]].
  - unfold staticInto in *. cbn. rewrite IH. destruct (plain k0 v0) eqn:Hp.
    + rewrite bagKeys_bagSet. split.
      * intros [[-> | ?] | (v & Hin & Hv)]; [right | by left | right].
        -- exists v0. split; [apply elem_of_cons; by left | done].
        -- exists v. split; [apply elem_of_cons; by right | done].
      * intros [? | (v & [Heq | Hin]%elem_of_cons & Hv)]; [left; by right | |].
        -- injection Heq as -> ->. left. by left.
        -- right. by exists v.
    + split.
      * intros [? | (v & Hin & Hv)]; [by left | right].
        exists v. split; [apply elem_of_cons; by right | done].
      * intros [? | (v & [Heq | Hin]%elem_of_cons & Hv)]; [by left | |].
        -- injection Heq as -> ->. congruence.
        -- right. by exists v.
Qed.

Lemma staticInto_absent (source acc : Bag) (k : string) :
  k ∉ bagKeys source -> bagGet k (staticInto acc source) = bagGet k acc.
Proof.
  unfold bagKeys, staticInto. revert acc.
  induction source as [| [k0 v0] rest IH]; intros acc; cbn; [done |].
  rewrite not_elem_of_cons. intros [Hne Hrest]. rewrite IH by done.
  destruct (plain k0 v0); [| done].
  rewrite bagGet_bagSet. by destruct (decide (k = k0)).
Qed.

Lemma staticInto_lookup (source acc : Bag) (k : string) (v : Val) :
  NoDup (bagKeys source) -> (k, v) ∈ source -> plain k v = true ->
  bagGet k (staticInto acc source) = v.
Proof.
  unfold bagKeys. revert acc.
  induction source as [| [k0 v0] rest IH]; intros acc; cbn.
  - intros _ H. by apply elem_of_nil in H.
  - rewrite NoDup_cons, elem_of_cons. intros [Hnot Hnd] [Heq | Hin] Hp.
    + injection Heq as <- <-. unfold staticInto. cbn. rewrite Hp.
      fold (staticInto (bagSet k v acc) rest). rewrite staticInto_absent by done.
      rewrite bagGet_bagSet. by destruct (decide (k = k)).
    + unfold staticInto. cbn. by apply IH.
Qed.

(** What a turn does to the static style, and a turn of the removal loop
    and the reset do not change what is there or empty it. *)
Lemma visit_staticStyle (isStyle : bool) (key : string) (value : Val) (w : World) :
  ∃ w', visit isStyle key value w = Returns tt w' ∧
    staticStyle (visualElement w') =
      if isStyle && plain key value
      then bagSet key value (staticStyle (visualElement w))
      else staticStyle (visualElement w).
Proof.
  unfold plain. destruct (binding_or_raw value) as [[binding ->] | Hmv].
  - rewrite visit_binding. eexists. split; [reflexivity |].
    rewrite andb_false_r. by destruct (reservedNames key).
  - rewrite Hmv. destruct (transformName key) eqn:Ht.
    + rewrite (visit_transform _ _ _ _ Hmv Ht). eexists. split; [reflexivity |].
      rewrite andb_false_r. destruct (values (visualElement w) !! key); [| done].
      by destruct (sameValue value (bagGet key (prev w))).
    + rewrite (visit_plain _ _ _ _ Hmv Ht). eexists. split; [reflexivity |].
      by destruct isStyle.
Qed.

Lemma staticStyle_kept_before_style (props : Bag) (w : World) :
  ∃ w1 w2, removal props w = Returns tt w1 ∧
    forIn props (visit false) w1 = Returns tt w2 ∧
    staticStyle (visualElement w2) = staticStyle (visualElement w).
Proof.
  set (I := fun w0 => staticStyle (visualElement w0) = staticStyle (visualElement w)).
  destruct (hoare_removal I props w) as (w1 & E1 & H1); [| done |].
  { intros key _ w0 H0. rewrite removeStale_exact. eexists tt, _.
    split; [reflexivity |]. by destruct (kept props key). }
  destruct (hoare_forIn_inv I (visit false) props) with (w := w1)
    as ([] & w2 & E2 & H2); [| exact H1 | by exists w1, w2].
  intros key value _ w0 H0.
  destruct (visit_staticStyle false key value w0) as (w0' & E0 & S0).
  exists tt, w0'. split; [exact E0 |]. unfold I. by rewrite S0.
Qed.

(** The style pass builds the static style from nothing. *)
Lemma style_pass_staticStyle (fields : Bag) (w : World) :
  ∃ w', (resetStaticStyle ;; forIn fields (visit true)) w = Returns tt w' ∧
    staticStyle (visualElement w') = staticInto [] fields.
Proof.
  unfold bind at 1. cbn [resetStaticStyle bind log modifyVisualElement].
  match goal with |- ∃ w', forIn _ _ ?w3 = _ ∧ _ =>
    destruct (hoare_forIn
      (fun done w0 => staticStyle (visualElement w0) = staticInto [] done)
      (visit true) fields) with (w := w3) as ([] & w' & E & H)
  end; [| done | by exists w'].
  intros done key value rest _ w0 H0.
  destruct (visit_staticStyle true key value w0) as (w0' & E0 & S0).
  exists tt, w0'. split; [exact E0 |].
  rewrite S0, H0. unfold staticInto. by rewrite fold_left_app.
Qed.

Lemma useMotionValues_staticStyle (props : Bag) (w : World) :
  ∃ w', useMotionValues props w = Returns tt w' ∧
    staticStyle (visualElement w') =
      if truthy (bagGet "style" props)
      then staticInto [] (ownFields (bagGet "style" props))
      else staticStyle (visualElement w).
Proof.
  destruct (staticStyle_kept_before_style props w) as (w1 & w2 & E1 & E2 & S2).
  rewrite useMotionValues_split. unfold bind at 1. rewrite E1.
  rewrite additions_stages. unfold bind at 1. rewrite E2.
  destruct (truthy (bagGet "style" props)).
  - apply style_pass_staticStyle.
  - by exists w2.
Qed.

(** X5: when the props have a style bag, the pass rebuilds the static
    style from it alone: afterwards the static style has exactly the names
    of the plain entries of the style bag (raw values under names that are
    no transform names), each with the value of its entry, whatever the
    static style held before. *)
Theorem static_style_is_rebuilt (props : Bag) (w : World) :
  truthy (bagGet "style" props) = true ->
  NoDup (bagKeys (ownFields (bagGet "style" props))) ->
  ∃ w', useMotionValues props w = Returns tt w' ∧
    (∀ key, key ∈ bagKeys (staticStyle (visualElement w')) <->
            ∃ value, (key, value) ∈ ownFields (bagGet "style" props) ∧
                     plain key value = true) ∧
    (∀ key value, (key, value) ∈ ownFields (bagGet "style" props) ->
       plain key value = true ->
       bagGet key (staticStyle (visualElement w')) = value).
Proof.
  intros Hs Hnd. destruct (useMotionValues_staticStyle props w) as (w' & E & S).
  rewrite Hs in S. exists w'. split; [exact E |]. rewrite S. split.
  - intros key. rewrite staticInto_keys. split; [| by right].
    intros [Hnil | ?]; [by apply elem_of_nil in Hnil | done].
  - intros key value Hin Hp. by apply staticInto_lookup.
Qed.

(** X6: when the props have no style bag, the pass does not touch the
    static style: what an earlier pass put there stays. *)
Theorem static_style_stays_without_style (props : Bag) (w : World) :
  truthy (bagGet "style" props) = false ->
  ∃ w', useMotionValues props w = Returns tt w' ∧
    staticStyle (visualElement w') = staticStyle (visualElement w).
Proof.
  intros Hs. destruct (useMotionValues_staticStyle props w) as (w' & E & S).
  rewrite Hs in S. by exists w'.
Qed.

(** *** Props that carry bindings only *)

Lemma visit_bindings (isStyle : bool) (key : string) (value : Val) (w : World) :
  (isMotionValue value = false -> transformName key = false) ->
  ∃ w', visit isStyle key value w = Returns tt w' ∧ bindings w' = bindings w.
Proof.
  intros Hb. destruct (binding_or_raw value) as [[binding ->] | Hmv].
  - rewrite visit_binding. eexists. split; [reflexivity |].
    by destruct (reservedNames key).
  - rewrite (visit_plain _ _ _ _ Hmv (Hb Hmv)). eexists. split; [reflexivity |].
    by destruct isStyle.
Qed.

(** X7: a pass over props that carry no raw value under a transform name
    leaves every binding as it is: it creates none and sets none. *)
Theorem bindings_untouched_without_raw_transforms (props : Bag) (w : World) :
  bindingsOnly props ->
  ∃ w', useMotionValues props w = Returns tt w' ∧ bindings w' = bindings w.
Proof.
  intros Hb. apply (hoare_useMotionValues (fun w0 => bindings w0 = bindings w)).
  - intros key _ w0 H0. rewrite removeStale_exact. eexists tt, _.
    split; [reflexivity |]. by destruct (kept props key).
  - intros key value Hin w0 H0.
    destruct (visit_bindings false key value w0) as (w0' & E0 & B0).
    { apply (Hb key value). apply elem_of_app. by left. }
    exists tt, w0'. split; [exact E0 | congruence].
  - intros _ w0 H0. eexists tt, _. split; [reflexivity | exact H0].
  - intros key value Hin w0 H0.
    destruct (visit_bindings true key value w0) as (w0' & E0 & B0).
    { apply (Hb key value). apply elem_of_app. by right. }
    exists tt, w0'. split; [exact E0 | congruence].
  - reflexivity.
Qed.

(** *** A second pass over the same props *)

Lemma visit_prev (isStyle : bool) (key : string) (value : Val) (w : World) :
  ∃ w', visit isStyle key value w = Returns tt w' ∧
    prev w' = if registers key value then bagSet key value (prev w) else prev w.
Proof.
  unfold registers. destruct (binding_or_raw value) as [[binding ->] | Hmv].
  - rewrite visit_binding. eexists. split; [reflexivity |]. cbn.
    by destruct (reservedNames key).
  - rewrite Hmv. fold (transformName key). destruct (transformName key) eqn:Ht.
    + rewrite (visit_transform _ _ _ _ Hmv Ht). eexists. split; [reflexivity |].
      destruct (values (visualElement w) !! key); [| done].
      by destruct (sameValue value (bagGet key (prev w))).
    + rewrite (visit_plain _ _ _ _ Hmv Ht). eexists. split; [reflexivity |].
      by destruct isStyle.
Qed.

Lemma NoDup_declared (props : Bag) :
  NoDup (bagKeys (declared props)) ->
  NoDup (bagKeys props) ∧ NoDup (bagKeys (ownFields (bagGet "style" props))) ∧
  ∀ key, key ∈ bagKeys props -> key ∉ bagKeys (ownFields (bagGet "style" props)).
Proof.
  unfold declared, bagKeys. rewrite fmap_app. intros (H1 & H2 & H3)%NoDup_app.
  by repeat split.
Qed.

Lemma kept_top (props : Bag) (key : string) (binding : ObjId) :
  NoDup (bagKeys props) -> (key, VMotionValue binding) ∈ props -> kept props key = true.
Proof. intros Hnd Hin. unfold kept. by rewrite (bagGet_NoDup _ _ _ Hnd Hin). Qed.

Lemma kept_style (props : Bag) (key : string) (binding : ObjId) :
  NoDup (bagKeys (ownFields (bagGet "style" props))) ->
  (key, VMotionValue binding) ∈ ownFields (bagGet "style" props) ->
  kept props key = true.
Proof.
  intros Hnd Hin. unfold kept. apply orb_true_iff. right.
  destruct (bagGet "style" props); cbn in *; try by apply elem_of_nil in Hin.
  by rewrite (bagGet_NoDup _ _ _ Hnd Hin).
Qed.

(** After a pass over bindings-only props with distinct names, the
    snapshot has only names that the removal loop keeps. *)
Lemma snapshot_kept_after_pass (props : Bag) (w : World) :
  NoDup (bagKeys (declared props)) -> bindingsOnly props ->
  ∃ w', useMotionValues props w = Returns tt w' ∧
        ∀ key, key ∈ bagKeys (prev w') -> kept props key = true.
Proof.
  intros (Hnd & Hnds & _)%NoDup_declared Hb.
  set (I := fun w0 : World => ∀ key, key ∈ bagKeys (prev w0) -> kept props key = true).
  assert (Hrem : ∃ w1, removal props w = Returns tt w1 ∧ I w1).
  { unfold removal, bind at 1, getWorld.
    destruct (hoare_forIn
      (fun done w1 => ∀ key, key ∈ bagKeys (prev w1) ->
                        key ∈ bagKeys (prev w) ∧
                        (key ∈ bagKeys done -> kept props key = true))
      (fun k _ => removeStale props k) (prev w)) with (w := w)
      as ([] & w1 & E & H1).
    - intros done k v rest _ w1 H1. rewrite removeStale_exact.
      eexists tt, _. split; [reflexivity |]. intros key.
      unfold bagKeys at 3. rewrite fmap_app, elem_of_app. cbn.
      rewrite list_elem_of_singleton. destruct (kept props k) eqn:Hk.
      + intros Hin. destruct (H1 key Hin) as [Hw Hd]. split; [done |].
        intros [? | ->]; auto.
      + cbn. rewrite bagKeys_bagDelete. intros [Hne Hin].
        destruct (H1 key Hin) as [Hw Hd]. split; [done |].
        intros [? | ->]; [auto | done].
    - intros key Hin. split; [done |]. intros H. by apply elem_of_nil in H.
    - exists w1. split; [exact E |]. intros key Hin.
      destruct (H1 key Hin) as [Hw Hd]. auto. }
  destruct Hrem as (w1 & E1 & H1).
  assert (Hvisit : ∀ isStyle key value,
    (key, value) ∈ declared props ->
    (∀ binding, value = VMotionValue binding -> kept props key = true) ->
    hoare I (visit isStyle key value) (fun _ => I)).
  { intros isStyle key value Hin Hkept w0 H0.
    destruct (visit_prev isStyle key value w0) as (w0' & E0 & P0).
    exists tt, w0'. split; [exact E0 |]. unfold I. rewrite P0.
    destruct (registers key value) eqn:Hr; [| exact H0].
    intros k [-> | Hk]%bagKeys_bagSet; [| by apply H0].
    destruct (binding_or_raw value) as [[binding ->] | Hmv]; [by eapply Hkept |].
    pose proof (Hb key value Hin Hmv) as Ht. unfold transformName in Ht.
    unfold registers in Hr. rewrite Hmv, Ht in Hr. discriminate. }
  destruct (hoare_additions I props) with (w := w1) as ([] & w' & E & H');
    [| | | exact H1 |].
  - intros key value Hin. apply Hvisit; [apply elem_of_app; by left |].
    intros binding ->. by apply (kept_top _ _ binding).
  - intros _ w0 H0. eexists tt, _. split; [reflexivity | exact H0].
  - intros key value Hin. apply Hvisit; [apply elem_of_app; by right |].
    intros binding ->. by apply (kept_style _ _ binding).
  - exists w'. rewrite useMotionValues_split. unfold bind. by rewrite E1.
Qed.

Lemma pass_settles (props : Bag) (w : World) :
  NoDup (bagKeys (declared props)) -> bindingsOnly props ->
  ∃ w', useMotionValues props w = Returns tt w' ∧ settled props w'.
Proof.
  intros Hnd Hb.
  destruct (snapshot_kept_after_pass props w Hnd Hb) as (w' & E & Hkept).
  exists w'. split; [exact E |]. split; [exact Hkept |]. split.
  - intros key binding Hin Hr.
    destruct (NoDup_declared props Hnd) as (Hnd1 & Hnd2 & Hdisj).
    destruct (supplied_binding_holds props key binding w Hnd1 Hnd2 Hr)
      as (w'' & E' & H').
    + apply elem_of_app in Hin as [Hin | Hin]; [right | by left].
      split; [exact Hin |]. intros value Hv. exfalso.
      apply (Hdisj key); [by apply (bagKeys_member _ (VMotionValue binding)) |].
      by apply (bagKeys_member _ value).
    + rewrite E in E'. by injection E' as <-.
  - intros Hs. destruct (useMotionValues_staticStyle props w) as (w'' & E' & S).
    rewrite E in E'. injection E' as <-. by rewrite Hs in S.
Qed.

Lemma visualElement_eq (a b : VisualElement) :
  values a = values b -> staticStyle a = staticStyle b -> a = b.
Proof. destruct a, b. cbn. by intros -> ->. Qed.

(** The state a pass works on, the call log apart. *)
Definition sameState (w w' : World) : Prop :=
  visualElement w' = visualElement w ∧ bindings w' = bindings w ∧ prev w' = prev w.

Lemma settled_visit (props : Bag) (w : World) (isStyle : bool) (key : string)
    (value : Val) (w0 : World) :
  bindingsOnly props -> settled props w -> (key, value) ∈ declared props ->
  values (visualElement w0) = values (visualElement w) ->
  bindings w0 = bindings w -> prev w0 = prev w ->
  ∃ w0', visit isStyle key value w0 = Returns tt w0' ∧
    values (visualElement w0') = values (visualElement w) ∧
    bindings w0' = bindings w ∧ prev w0' = prev w ∧
    staticStyle (visualElement w0') =
      if isStyle && plain key value
      then bagSet key value (staticStyle (visualElement w0))
      else staticStyle (visualElement w0).
Proof.
  intros Hb (_ & Hheld & _) Hin Ev Eb Ep.
  destruct (visit_staticStyle isStyle key value w0) as (w0' & E0 & S0).
  exists w0'. split; [exact E0 |]. split; [| split; [| split; [| exact S0]]].
  - destruct (binding_or_raw value) as [[binding ->] | Hmv].
    + rewrite visit_binding in E0. injection E0 as <-.
      destruct (reservedNames key) eqn:Hr; [done |]. cbn.
      destruct (Hheld key binding Hin Hr) as (Hv & _). rewrite Ev.
      by apply insert_id.
    + rewrite (visit_plain _ _ _ _ Hmv (Hb key value Hin Hmv)) in E0.
      injection E0 as <-. by destruct isStyle.
  - destruct (visit_bindings isStyle key value w0 (Hb key value Hin)) as (w1 & E1 & B1).
    rewrite E0 in E1. injection E1 as <-. congruence.
  - destruct (visit_prev isStyle key value w0) as (w1 & E1 & P1).
    rewrite E0 in E1. injection E1 as <-. rewrite P1, Ep.
    destruct (registers key value) eqn:Hr; [| done].
    destruct (binding_or_raw value) as [[binding ->] | Hmv].
    + unfold registers in Hr. cbn in Hr. apply negb_true_iff in Hr.
      destruct (Hheld key binding Hin Hr) as (_ & Hk & Hg). by apply bagSet_id.
    + pose proof (Hb key value Hin Hmv) as Ht. unfold transformName in Ht.
      unfold registers in Hr. rewrite Hmv, Ht in Hr. discriminate.
Qed.

Lemma settled_pass_is_idle (props : Bag) (w : World) :
  bindingsOnly props -> settled props w ->
  ∃ w', useMotionValues props w = Returns tt w' ∧ sameState w w'.
Proof.
  intros Hb Hset. pose proof Hset as (Hkept & Hheld & Hstatic).
  assert (E1 : removal props w = Returns tt w).
  { destruct (hoare_removal (fun w0 => w0 = w) props w) as (w1 & E1 & ->); [| done | done].
    intros key Hkey w0 ->. rewrite removeStale_exact, (Hkept key Hkey). by exists tt, w. }
  rewrite useMotionValues_split. unfold bind at 1. rewrite E1.
  rewrite additions_stages.
  destruct (hoare_forIn_inv (fun w0 => sameState w w0) (visit false) props) with (w := w)
    as ([] & w2 & E2 & Hve & Hbi & Hpr); [| done |].
  { intros key value Hin w0 (Hve & Hbi & Hpr).
    destruct (settled_visit props w false key value w0 Hb Hset) as (w0' & E0 & Ev & Ebi & Ep & Es);
      [apply elem_of_app; by left | by rewrite Hve | done | done |].
    exists tt, w0'. split; [exact E0 |]. repeat split; [| done | done].
    cbn in Es. apply visualElement_eq; [done | by rewrite Es, Hve]. }
  unfold bind at 1. rewrite E2.
  destruct (truthy (bagGet "style" props)) eqn:Hs; [| by exists w2].
  unfold bind at 1. cbn [resetStaticStyle bind log modifyVisualElement].
  match goal with |- ∃ w', forIn _ _ ?w3 = _ ∧ _ =>
    destruct (hoare_forIn
      (fun done w0 => values (visualElement w0) = values (visualElement w) ∧
                      bindings w0 = bindings w ∧ prev w0 = prev w ∧
                      staticStyle (visualElement w0) = staticInto [] done)
      (visit true) (ownFields (bagGet "style" props))) with (w := w3)
      as ([] & w' & E & Ev & Ebi & Ep & Es)
  end.
  - intros done key value rest Hsplit w0 (Ev & Ebi & Ep & Es).
    destruct (settled_visit props w true key value w0 Hb Hset) as (w0' & E0 & Ev' & Ebi' & Ep' & Es');
      [| done | done | done |].
    { apply elem_of_app. right. rewrite Hsplit. apply elem_of_app. right.
      apply elem_of_cons. by left. }
    exists tt, w0'. split; [exact E0 |]. repeat split; try done.
    rewrite Es', Es. unfold staticInto. by rewrite fold_left_app.
  - cbn. by rewrite Hve.
  - exists w'. split; [exact E |]. repeat split; [| done | done].
    apply visualElement_eq; [done | by rewrite Es, (Hstatic eq_refl)].
Qed.

(** X8: for props that carry no raw value under a transform name and use
    each name once, a second pass over the same props changes nothing: the
    registry, the static style, every binding and the snapshot are as the
    first pass left them. *)
Theorem second_pass_is_idle (props : Bag) (w : World) :
  NoDup (bagKeys (declared props)) -> bindingsOnly props ->
  ∃ w1 w2, useMotionValues props w = Returns tt w1 ∧
    useMotionValues props w1 = Returns tt w2 ∧
    visualElement w2 = visualElement w1 ∧
    bindings w2 = bindings w1 ∧
    prev w2 = prev w1.
Proof.
  intros Hnd Hb.
  destruct (pass_settles props w Hnd Hb) as (w1 & E1 & Hset).
  destruct (settled_pass_is_idle props w1 Hb Hset) as (w2 & E2 & Hsame).
  by exists w1, w2.
Qed.

End WithTransformTables.

(** *** The properties at sample inputs *)

(** C1 at the sample tables: the first render. *)
Lemma update_replaces_binding_sample :
  sampleTransformProp "rotate" = true ∧
  useMotionValues sampleTransformProp sampleTransformOriginProp
    [("rotate"%string, VNum 45)] mounted = Returns tt rotated45.
Proof.
  assert (Ht : sampleTransformProp "rotate" = true) by reflexivity.
  split; [exact Ht |].
  exact (proj1 (raw_transform_update_replaces_binding
                  sampleTransformProp sampleTransformOriginProp Ht)).
Defined.

(** C2 at the sample tables: the second render rebinds [rotate]. *)
Lemma rerender_mutates_registry_sample :
  sampleTransformProp "rotate" = true ∧
  ∃ w2, useMotionValues sampleTransformProp sampleTransformOriginProp
          [("rotate"%string, VNum 45)] rotated45 = Returns tt w2 ∧
        values (visualElement w2) !! "rotate"%string = Some 1%nat.
Proof.
  assert (Ht : sampleTransformProp "rotate" = true) by reflexivity.
  split; [exact Ht |].
  destruct (proj2 (raw_transform_rerender_mutates_registry
                     sampleTransformProp sampleTransformOriginProp Ht))
    as (w2 & E & _ & _ & V & _).
  exists w2. split; [exact E | exact V].
Defined.

(** C8 at [dragProps], for the reserved name [dragOriginX]. *)
Lemma reserved_name_sample :
  reservedNames "dragOriginX" = true ∧
  sampleTransformProp "dragOriginX" || sampleTransformOriginProp "dragOriginX" = false ∧
  ∃ w' new,
    useMotionValues sampleTransformProp sampleTransformOriginProp dragProps mounted
      = Returns tt w' ∧
    callsFrom mounted w' new ∧
    (∀ binding, CallAddValue "dragOriginX" binding ∉ new) ∧
    (¬ registered "dragOriginX" mounted -> ¬ registered "dragOriginX" w').
Proof.
  assert (Hr : reservedNames "dragOriginX" = true) by reflexivity.
  assert (Ht : sampleTransformProp "dragOriginX" ||
               sampleTransformOriginProp "dragOriginX" = false) by reflexivity.
  split; [exact Hr |]. split; [exact Ht |].
  exact (reserved_name_never_registered sampleTransformProp sampleTransformOriginProp
           dragProps "dragOriginX" mounted Hr (or_intror Ht)).
Defined.


(** X2 at [overriddenProps]: the style bag's binding wins. *)
Lemma supplied_binding_sample :
  ∃ w', useMotionValues sampleTransformProp sampleTransformOriginProp
          overriddenProps mounted = Returns tt w' ∧
    values (visualElement w') !! "x"%string = Some 2%nat ∧
    bagGet "x" (prev w') = VMotionValue 2.
Proof.
  apply (supplied_binding_is_registered sampleTransformProp sampleTransformOriginProp
           overriddenProps "x" 2 mounted).
  - refine (bool_decide_unpack _ _). by vm_compute.
  - refine (bool_decide_unpack _ _). by vm_compute.
  - reflexivity.
  - left. cbn. apply elem_of_cons. by left.
Defined.

(** X3 at [rotateProps]. *)
Lemma style_value_sample :
  ∃ w' new, useMotionValues sampleTransformProp sampleTransformOriginProp
              rotateProps mounted = Returns tt w' ∧
    callsFrom mounted w' new ∧
    CallSet 0 (VNum 90) ∈ new ∧
    values (visualElement w') !! "rotate"%string = Some 0%nat ∧
    bagGet "rotate" (prev w') = VNum 90.
Proof.
  apply (style_value_updates_binding sampleTransformProp sampleTransformOriginProp
           rotateProps "rotate" 0 (VNum 90) mounted).
  - refine (bool_decide_unpack _ _). by vm_compute.
  - refine (bool_decide_unpack _ _). by vm_compute.
  - reflexivity.
  - reflexivity.
  - apply elem_of_cons. by left.
  - cbn. apply elem_of_cons. by left.
  - reflexivity.
Defined.

(** X4 at [unboundProps], after [boundProps] was rendered. *)
Lemma dropped_binding_sample :
  ∃ w' new, useMotionValues sampleTransformProp sampleTransformOriginProp
              unboundProps boundX = Returns tt w' ∧
    callsFrom boundX w' new ∧
    CallRemoveValue "x" ∈ new ∧
    values (visualElement w') !! "x"%string = None ∧
    "x"%string ∉ bagKeys (prev w').
Proof.
  apply (dropped_binding_is_unregistered sampleTransformProp sampleTransformOriginProp
           unboundProps "x" boundX).
  - cbn. apply elem_of_cons. by left.
  - reflexivity.
  - intros value Hin. cbn in Hin.
    repeat (apply elem_of_cons in Hin as [Hin | Hin]; [discriminate Hin |]).
    by apply elem_of_nil in Hin.
Defined.

(** X5 at [unboundProps], from a world with a static style. *)
Lemma static_style_sample :
  ∃ w', useMotionValues sampleTransformProp sampleTransformOriginProp
          unboundProps boundX = Returns tt w' ∧
    (∀ key, key ∈ bagKeys (staticStyle (visualElement w')) <->
            ∃ value, (key, value) ∈ ownFields (bagGet "style" unboundProps) ∧
                     plain sampleTransformProp sampleTransformOriginProp key value = true) ∧
    (∀ key value, (key, value) ∈ ownFields (bagGet "style" unboundProps) ->
       plain sampleTransformProp sampleTransformOriginProp key value = true ->
       bagGet key (staticStyle (visualElement w')) = value).
Proof.
  apply (static_style_is_rebuilt sampleTransformProp sampleTransformOriginProp
           unboundProps boundX).
  - reflexivity.
  - refine (bool_decide_unpack _ _). by vm_compute.
Defined.

(** X6 at props without a style bag, after [boundProps] was rendered. *)
Lemma static_style_stays_sample :
  ∃ w', useMotionValues sampleTransformProp sampleTransformOriginProp
          [("x"%string, VMotionValue 0)] boundX = Returns tt w' ∧
    staticStyle (visualElement w') = [("opacity"%string, VNum 5)].
Proof.
  apply (static_style_stays_without_style sampleTransformProp sampleTransformOriginProp
           [("x"%string, VMotionValue 0)] boundX).
  reflexivity.
Defined.

Lemma boundProps_bindingsOnly :
  bindingsOnly sampleTransformProp sampleTransformOriginProp boundProps.
Proof.
  intros key value Hin Hmv.
  assert (E : declared boundProps =
              boundProps ++ [("opacity"%string, VNum 5)]) by reflexivity.
  rewrite E in Hin. cbn in Hin.
  repeat (apply elem_of_cons in Hin as [Hin | Hin];
          [injection Hin as -> ->; (reflexivity || discriminate Hmv) |]).
  by apply elem_of_nil in Hin.
Defined.

(** X7 at [boundProps]. *)
Lemma bindings_untouched_sample :
  ∃ w', useMotionValues sampleTransformProp sampleTransformOriginProp
          boundProps rotated45 = Returns tt w' ∧
    bindings w' = [VNum 45].
Proof.
  apply (bindings_untouched_without_raw_transforms
           sampleTransformProp sampleTransformOriginProp boundProps rotated45).
  exact boundProps_bindingsOnly.
Defined.

(** X8 at [boundProps]. *)
Lemma second_pass_sample :
  ∃ w1 w2,
    useMotionValues sampleTransformProp sampleTransformOriginProp boundProps mounted
      = Returns tt w1 ∧
    useMotionValues sampleTransformProp sampleTransformOriginProp boundProps w1
      = Returns tt w2 ∧
    visualElement w2 = visualElement w1 ∧
    bindings w2 = bindings w1 ∧
    prev w2 = prev w1.
Proof.
  apply (second_pass_is_idle sampleTransformProp sampleTransformOriginProp
           boundProps mounted).
  - refine (bool_decide_unpack _ _). by vm_compute.
  - exact boundProps_bindingsOnly.
Defined.

End Reconciler.

(** ** MotionContext.ts *)

Module Context.

(** [PresenceContextProps], the two fields [useMotionContext] reads. *)
Module Presence.
Record t : Type := { id : Val; initial : Val }.
End Presence.

(** The props [useMotionContext] destructures from [MotionProps]. *)
Module Props.
Record t : Type := {
  initial : Val;
  animate : Val;
  variants : Val;
  whileTap : Val;
  whileHover : Val;
  layoutId : Val;
}.
End Props.

(** [MotionContextProps], with the fields the context object is built
    with. An absent optional field is [VUndefined] or [None]. The declared
    field [visualElement] is neither read nor written here. *)
Module Ctx.
Record t : Type := {
  controls : option ObjId;           (* a [VisualElementAnimationControls] *)
  initial : Val;
  animate : Val;
  values : Val;
  hasMounted : option ObjId;         (* the ref object *)
  isReducedMotion : Val;
  presenceId : Val;
  layoutDepth : Z;
  layoutDelta : option ObjId;
  layoutDeltas : option (list ObjId);
  layoutProgress : option ObjId;
  isPresenceRoot : option bool;
  static : option bool;
}.
End Ctx.

Abbreviation MotionContextProps := Ctx.t.
Abbreviation MotionProps := Props.t.

(** The default value of [MotionContext]. *)
Definition MotionContext : MotionContextProps :=
  {| Ctx.controls := None; Ctx.initial := VUndefined; Ctx.animate := VUndefined;
     Ctx.values := VUndefined; Ctx.hasMounted := None;
     Ctx.isReducedMotion := VUndefined; Ctx.presenceId := VUndefined;
     Ctx.layoutDepth := -1; Ctx.layoutDelta := None; Ctx.layoutDeltas := None;
     Ctx.layoutProgress := None; Ctx.isPresenceRoot := None;
     Ctx.static := Some false |}.

(** [context.static = isStatic] *)
Definition assignStatic (isStatic : bool) (c : MotionContextProps) : MotionContextProps :=
  {| Ctx.controls := Ctx.controls c; Ctx.initial := Ctx.initial c;
     Ctx.animate := Ctx.animate c; Ctx.values := Ctx.values c;
     Ctx.hasMounted := Ctx.hasMounted c;
     Ctx.isReducedMotion := Ctx.isReducedMotion c;
     Ctx.presenceId := Ctx.presenceId c; Ctx.layoutDepth := Ctx.layoutDepth c;
     Ctx.layoutDelta := Ctx.layoutDelta c; Ctx.layoutDeltas := Ctx.layoutDeltas c;
     Ctx.layoutProgress := Ctx.layoutProgress c;
     Ctx.isPresenceRoot := Ctx.isPresenceRoot c;
     Ctx.static := Some isStatic |}.

Definition isVariantLabel (v : Val) : bool := typeofString v || isArray v.

Definition isAnimationControls (v : Val) : bool := instanceofAnimationControls v.

(** *** The component's hooks *)

(** The cells of the hooks [useMotionContext] calls, in call order; a cell
    is [None] until the first evaluation fills it. *)
Record Cells : Type := {
  refHasMounted : option (ObjId * bool);     (* [useRef(false)]: the ref, its [current] *)
  constLayoutDelta : option ObjId;           (* [useConstant(createZeroDelta)] *)
  refLayoutDeltas : option (list ObjId);     (* [useRef([...])]: its [current] *)
  constLayoutProgress : option ObjId;        (* [useMotionValue(0)] *)
  memoContext : option (list Val * ObjId);   (* [useMemo]: dependencies, value *)
  refIsInitialRender : option bool;          (* inside [useInitialOrEveryRender] *)
}.

Record World : Type := {
  cells : Cells;
  contexts : gmap ObjId MotionContextProps;  (* the context objects, by identity *)
  fresh : ObjId;                             (* the identity the next object gets *)
  applied : list (ObjId * Val);              (* calls [controls.apply(target)] *)
}.

(** A component before its first evaluation. *)
Definition unmounted : World :=
  {| cells := {| refHasMounted := None; constLayoutDelta := None;
                 refLayoutDeltas := None; constLayoutProgress := None;
                 memoContext := None; refIsInitialRender := None |};
     contexts := ∅; fresh := 0%nat; applied := [] |}.

(** What an evaluation can throw: the [ReferenceError] of an identifier
    that resolves to nothing. *)
Inductive Exception : Type :=
| ReferenceError (name : string).

(** An evaluation returns a value or throws, in the world it reached. *)
Inductive Outcome (A : Type) : Type :=
| Returns (a : A) (w : World)
| Throws (e : Exception) (w : World).
Arguments Returns {A} a w.
Arguments Throws {A} e w.

Definition M (A : Type) : Type := World -> Outcome A.

Definition ret {A} (a : A) : M A := fun w => Returns a w.

Definition bind {A B} (m : M A) (k : A -> M B) : M B :=
  fun w => match m w with
           | Returns a w' => k a w'
           | Throws e w' => Throws e w'
           end.

Definition throw {A} (e : Exception) : M A := fun w => Throws e w.

Declare Scope hook_scope.
Delimit Scope hook_scope with hook.
Notation "'let*' x ':=' m 'in' k" := (bind m (fun x => k))
  (at level 10, x name, m at level 100, k at level 200) : hook_scope.
Notation "m ';;' k" := (bind m (fun _ => k))
  (at level 100, k at level 200, right associativity) : hook_scope.
Open Scope hook_scope.

Definition getCells : M Cells := fun w => Returns (cells w) w.

Definition setCells (c : Cells) : M unit :=
  fun w => Returns tt {| cells := c; contexts := contexts w; fresh := fresh w;
                         applied := applied w |}.

(** A new object: its identity. *)
Definition new : M ObjId :=
  fun w => Returns (fresh w)
             {| cells := cells w; contexts := contexts w;
                fresh := Datatypes.S (fresh w); applied := applied w |}.

Definition modifyContexts
    (f : gmap ObjId MotionContextProps -> gmap ObjId MotionContextProps) : M unit :=
  fun w => Returns tt {| cells := cells w; contexts := f (contexts w);
                         fresh := fresh w; applied := applied w |}.

(** [controls.apply(target)] *)
Definition apply (controls : ObjId) (target : Val) : M unit :=
  fun w => Returns tt {| cells := cells w; contexts := contexts w; fresh := fresh w;
                         applied := applied w ++ [(controls, target)] |}.

(** [const hasMounted = useRef(false)] *)
Definition useRefHasMounted : M ObjId :=
  let* c := getCells in
  match refHasMounted c with
  | Some (ref, _) => ret ref
  | None =>
      let* ref := new in
      setCells {| refHasMounted := Some (ref, false);
                  constLayoutDelta := constLayoutDelta c;
                  refLayoutDeltas := refLayoutDeltas c;
                  constLayoutProgress := constLayoutProgress c;
                  memoContext := memoContext c;
                  refIsInitialRender := refIsInitialRender c |} ;;
      ret ref
  end.

(** Modelled from the spec: [useConstant] (utils/use-constant) is not
    among the sources; it is a persistent value created once and reused.
    [const layoutDelta = useConstant(createZeroDelta)]: the delta record
    is an object of its own, known here by its identity. *)
Definition useConstantLayoutDelta : M ObjId :=
  let* c := getCells in
  match constLayoutDelta c with
  | Some delta => ret delta
  | None =>
      let* delta := new in
      setCells {| refHasMounted := refHasMounted c;
                  constLayoutDelta := Some delta;
                  refLayoutDeltas := refLayoutDeltas c;
                  constLayoutProgress := constLayoutProgress c;
                  memoContext := memoContext c;
                  refIsInitialRender := refIsInitialRender c |} ;;
      ret delta
  end.

(** [const layoutDeltas = useRef(init)], read as [layoutDeltas.current] *)
Definition useRefLayoutDeltas (init : list ObjId) : M (list ObjId) :=
  let* c := getCells in
  match refLayoutDeltas c with
  | Some deltas => ret deltas
  | None =>
      setCells {| refHasMounted := refHasMounted c;
                  constLayoutDelta := constLayoutDelta c;
                  refLayoutDeltas := Some init;
                  constLayoutProgress := constLayoutProgress c;
                  memoContext := memoContext c;
                  refIsInitialRender := refIsInitialRender c |} ;;
      ret init
  end.

(** Modelled from the spec: [useMotionValue] (value/use-motion-value) is
    not among the sources; the layout-progress binding is allocated once.
    [const layoutProgress = useMotionValue(0)] *)
Definition useMotionValueZero : M ObjId :=
  let* c := getCells in
  match constLayoutProgress c with
  | Some progress => ret progress
  | None =>
      let* progress := new in
      setCells {| refHasMounted := refHasMounted c;
                  constLayoutDelta := constLayoutDelta c;
                  refLayoutDeltas := refLayoutDeltas c;
                  constLayoutProgress := Some progress;
                  memoContext := memoContext c;
                  refIsInitialRender := refIsInitialRender c |} ;;
      ret progress
  end.

(** React compares the dependencies of a memo pairwise with [Object.is]. *)
Fixpoint areHookInputsEqual (next last : list Val) : bool :=
  match next, last with
  | [], [] => true
  | a :: next', b :: last' => sameValue a b && areHookInputsEqual next' last'
  | _, _ => false
  end.

(** [useMemo(factory, deps)]: the cached value while the dependencies are
    the same; otherwise the factory runs and, when it returns, its value is
    cached with the dependencies. A factory that throws caches nothing. *)
Definition useMemo (factory : M ObjId) (deps : list Val) : M ObjId :=
  let create :=
    let* value := factory in
    let* c := getCells in
    setCells {| refHasMounted := refHasMounted c;
                constLayoutDelta := constLayoutDelta c;
                refLayoutDeltas := refLayoutDeltas c;
                constLayoutProgress := constLayoutProgress c;
                memoContext := Some (deps, value);
                refIsInitialRender := refIsInitialRender c |} ;;
    ret value in
  let* c := getCells in
  match memoContext c with
  | Some (last, value) =>
      if areHookInputsEqual deps last then ret value else create
  | None => create
  end.

(** Modelled from the spec: [useInitialOrEveryRender]
    (utils/use-initial-or-every-render) is not among the sources. The spec:
    the callback runs on the first evaluation only when [isInitialOnly], on
    every evaluation otherwise. *)
Definition useInitialOrEveryRender (callback : M unit) (isInitialOnly : bool) : M unit :=
  let* c := getCells in
  let isInitialRender := default true (refIsInitialRender c) in
  (if negb isInitialOnly || (isInitialOnly && isInitialRender) then callback
   else ret tt) ;;
  let* c := getCells in
  setCells {| refHasMounted := refHasMounted c;
              constLayoutDelta := constLayoutDelta c;
              refLayoutDeltas := refLayoutDeltas c;
              constLayoutProgress := constLayoutProgress c;
              memoContext := memoContext c;
              refIsInitialRender := Some false |}.

(** [useEffect(() => { hasMounted.current = true }, [])], run when the
    evaluation is committed. *)
Definition useEffectHasMounted : M unit :=
  let* c := getCells in
  match refHasMounted c with
  | Some (ref, _) =>
      setCells {| refHasMounted := Some (ref, true);
                  constLayoutDelta := constLayoutDelta c;
                  refLayoutDeltas := refLayoutDeltas c;
                  constLayoutProgress := constLayoutProgress c;
                  memoContext := memoContext c;
                  refIsInitialRender := refIsInitialRender c |}
  | None => ret tt
  end.

(** *** The derivation *)

(** [presenceContext?.id] *)
Definition presenceId (presenceContext : option Presence.t) : Val :=
  match presenceContext with Some p => Presence.id p | None => VUndefined end.

(** [initial] after lines 67-70: the presence scope's [initial], when
    defined, replaces the prop. *)
Definition initial (presenceContext : option Presence.t) (props : MotionProps) : Val :=
  let override :=
    match presenceContext with Some p => Presence.initial p | None => VUndefined end in
  if negb (sameValue override VUndefined) then override else Props.initial props.

(** [initialState], lines 72-78; declared without a value, it is
    [undefined] when neither branch assigns it. *)
Definition initialState (presenceContext : option Presence.t) (props : MotionProps) : Val :=
  let initial := initial presenceContext props in
  let animate := Props.animate props in
  if sameValue initial (VBool false) && negb (isAnimationControls animate) then animate
  else if negb (typeofBoolean initial) then initial
  else VUndefined.

(** [shouldPropagateControls], lines 89-94: the value of the [||] chain. *)
Definition shouldPropagateControls (props : MotionProps) : Val :=
  jsOr (jsOr (jsOr (jsOr (Props.variants props)
                         (VBool (isVariantLabel (Props.animate props))))
                   (VBool (isVariantLabel (Props.whileTap props))))
             (VBool (isVariantLabel (Props.whileHover props))))
       (VBool (isAnimationControls (Props.animate props))).

Definition targetInitial (parentContext : MotionContextProps)
    (presenceContext : option Presence.t) (props : MotionProps) : Val :=
  let initialState := initialState presenceContext props in
  if isVariantLabel initialState then initialState else Ctx.initial parentContext.

Definition targetAnimate (parentContext : MotionContextProps) (props : MotionProps) : Val :=
  if isVariantLabel (Props.animate props) then Props.animate props
  else Ctx.animate parentContext.

Definition initialDependency (parentContext : MotionContextProps) (isStatic : bool)
    (presenceContext : option Presence.t) (props : MotionProps) : Val :=
  if isStatic then targetInitial parentContext presenceContext props else VNull.

Definition animateDependency (parentContext : MotionContextProps) (props : MotionProps) : Val :=
  let targetAnimate := targetAnimate parentContext props in
  if truthy (jsAnd (shouldPropagateControls props) (VBool (isVariantLabel targetAnimate)))
  then targetAnimate else VNull.

(** The dependency list of the memo, lines 153-160. *)
Definition dependencies (parentContext : MotionContextProps) (isStatic : bool)
    (presenceContext : option Presence.t) (props : MotionProps) : list Val :=
  [ initialDependency parentContext isStatic presenceContext props;
    animateDependency parentContext props;
    Ctx.isReducedMotion parentContext;
    Props.animate props;
    Props.layoutId props;
    presenceId presenceContext ].

(** The double nearest to an integer, ties going to the even mantissa:
    what [+] returns for an integer sum. Integers of magnitude up to 2^53
    are doubles themselves; beyond, the low bits are rounded away. The
    integers of magnitude 2^1024 and more, which round to an infinity, are
    out of reach of a depth. *)
Definition roundToDouble (z : Z) : Z :=
  let a := Z.abs z in
  let e := (Z.log2 a - 52)%Z in
  if (e <=? 0)%Z then z
  else
    let q := Z.shiftr a e in
    let r := (a - Z.shiftl q e)%Z in
    let half := Z.shiftl 1 (e - 1) in
    let q' := if (half <? r)%Z || ((r =? half)%Z && Z.odd q) then (q + 1)%Z else q in
    (Z.sgn z * Z.shiftl q' e)%Z.

(** [layoutDepth] of the object literal, lines 143-147; the depth is a
    number that holds an integer. *)
Definition layoutDepth (parentContext : MotionContextProps) (props : MotionProps) : Z :=
  if truthy (jsOr (Props.animate props)
                  (VBool (negb (sameValue (Props.layoutId props) VUndefined))))
  then roundToDouble (Ctx.layoutDepth parentContext + 1)
  else Ctx.layoutDepth parentContext.

(** *** Sample inputs *)

(** A component that declares none of the six props. *)
Definition noProps : MotionProps :=
  {| Props.initial := VUndefined; Props.animate := VUndefined;
     Props.variants := VUndefined; Props.whileTap := VUndefined;
     Props.whileHover := VUndefined; Props.layoutId := VUndefined |}.

(** A component that declares [animate: "open"]. *)
Definition labelProps : MotionProps :=
  {| Props.initial := VUndefined; Props.animate := VStr "open";
     Props.variants := VUndefined; Props.whileTap := VUndefined;
     Props.whileHover := VUndefined; Props.layoutId := VUndefined |}.

(** A component that declares [initial: "closed"] and [animate: "open"]. *)
Definition closedOpenProps : MotionProps :=
  {| Props.initial := VStr "closed"; Props.animate := VStr "open";
     Props.variants := VUndefined; Props.whileTap := VUndefined;
     Props.whileHover := VUndefined; Props.layoutId := VUndefined |}.

(** A parent context at a given depth, whose controls are object 100. *)
Definition parentAt (depth : Z) : MotionContextProps :=
  {| Ctx.controls := Some 100%nat; Ctx.initial := VUndefined;
     Ctx.animate := VUndefined; Ctx.values := VUndefined; Ctx.hasMounted := None;
     Ctx.isReducedMotion := VUndefined; Ctx.presenceId := VUndefined;
     Ctx.layoutDepth := depth; Ctx.layoutDelta := None; Ctx.layoutDeltas := None;
     Ctx.layoutProgress := None; Ctx.isPresenceRoot := None;
     Ctx.static := Some false |}.

(** *** One evaluation *)

(** The identifier [values] of the object literal (line 139). No
    parameter or local of [useMotionContext] has that name and the file
    neither declares nor imports it: the reference resolves to nothing, and
    evaluating it throws a [ReferenceError]. *)
Definition values : M Val := throw (ReferenceError "values").

(** The memo's factory, lines 133-152: the properties of the object
    literal are evaluated in order, then the object is allocated. The
    properties before [values] have no effect of their own. *)
Definition contextObject (parentContext : MotionContextProps) (controls : ObjId)
    (presenceContext : option Presence.t) (props : MotionProps)
    (hasMounted layoutDelta : ObjId) (layoutDeltas : list ObjId)
    (layoutProgress : ObjId) : M ObjId :=
  let controls :=
    if truthy (shouldPropagateControls props) then Some controls
    else Ctx.controls parentContext in
  let initial := targetInitial parentContext presenceContext props in
  let animate := targetAnimate parentContext props in
  let* values := values in
  let* context := new in
  modifyContexts (insert context
    {| Ctx.controls := controls;
       Ctx.initial := initial;
       Ctx.animate := animate;
       Ctx.values := values;
       Ctx.hasMounted := Some hasMounted;
       Ctx.isReducedMotion := Ctx.isReducedMotion parentContext;
       Ctx.presenceId := presenceId presenceContext;
       Ctx.layoutDepth := layoutDepth parentContext props;
       Ctx.layoutDelta := Some layoutDelta;
       Ctx.layoutDeltas := Some layoutDeltas;
       Ctx.layoutProgress := Some layoutProgress;
       Ctx.isPresenceRoot :=
         Some (negb (sameValue (Ctx.presenceId parentContext)
                               (presenceId presenceContext)));
       Ctx.static := None |}) ;;
  ret context.

(** [useMotionContext(parentContext, controls, visualElement, isStatic,
    props)]: one evaluation, returning the context object's identity.
    [presenceContext] is what [useContext(PresenceContext)] yields. *)
Definition useMotionContext (parentContext : MotionContextProps)
    (controls visualElement : ObjId) (isStatic : bool) (props : MotionProps)
    (presenceContext : option Presence.t) : M ObjId :=
  let initialState := initialState presenceContext props in
  let* hasMounted := useRefHasMounted in
  let* layoutDelta := useConstantLayoutDelta in
  let* layoutDeltas :=
    useRefLayoutDeltas (default [] (Ctx.layoutDeltas parentContext) ++ [layoutDelta]) in
  let* layoutProgress := useMotionValueZero in
  let* context :=
    useMemo (contextObject parentContext controls presenceContext props
               hasMounted layoutDelta layoutDeltas layoutProgress)
            (dependencies parentContext isStatic presenceContext props) in
  modifyContexts (alter (assignStatic isStatic) context) ;;
  useInitialOrEveryRender
    (let initialToApply := jsOr initialState (Ctx.initial parentContext) in
     if truthy initialToApply then apply controls initialToApply else ret tt)
    (negb isStatic) ;;
  useEffectHasMounted ;;
  ret context.

(** *** The vocabulary of the properties *)

(** The evaluation has to build a context object: the memo holds none
    yet, or a dependency differs from the one the memo holds. *)
Definition rebuilds (deps : list Val) (w : World) : bool :=
  match memoContext (cells w) with
  | Some (last, _) => negb (areHookInputsEqual deps last)
  | None => true
  end.

(** The resolved initial state as the specification words it: the presence
    override, when defined, replaces the prop; then a literal [false] with
    an [animate] that is no controls handle gives [animate], any other
    non-boolean gives [initial] itself, and the rest gives [undefined]. *)
Definition resolvedInitialState (presenceContext : option Presence.t)
    (props : MotionProps) : Val :=
  let effective :=
    match presenceContext with
    | Some p =>
        match Presence.initial p with
        | VUndefined => Props.initial props
        | _ => Presence.initial p
        end
    | None => Props.initial props
    end in
  match effective with
  | VBool false =>
      match Props.animate props with
      | VAnimationControls _ => VUndefined
      | _ => Props.animate props
      end
  | VBool true => VUndefined
  | _ => effective
  end.

(** A variant label: a string or an array. *)
Definition variantLabel (v : Val) : Prop :=
  (∃ s, v = VStr s) ∨ (∃ id items, v = VArray id items).

(** An imperative animation-controls handle. *)
Definition controlsHandle (v : Val) : Prop := ∃ id, v = VAnimationControls id.

(** A propagation root, as the specification words it. *)
Definition propagationRoot (props : MotionProps) : Prop :=
  Props.variants props ≠ VUndefined ∨
  variantLabel (Props.animate props) ∨
  variantLabel (Props.whileTap props) ∨
  variantLabel (Props.whileHover props) ∨
  controlsHandle (Props.animate props).

(** [variants?: Variants]: absent, or an object. *)
Definition variantsTyped (props : MotionProps) : Prop :=
  Props.variants props = VUndefined ∨
  ∃ id fields, Props.variants props = VObject id fields.

(** The same props but for [variants], [whileTap] and [whileHover]. *)
Definition withVariantProps (variants whileTap whileHover : Val)
    (props : MotionProps) : MotionProps :=
  {| Props.initial := Props.initial props; Props.animate := Props.animate props;
     Props.variants := variants; Props.whileTap := whileTap;
     Props.whileHover := whileHover; Props.layoutId := Props.layoutId props |}.

(** A statement that returns and leaves the memo, the context objects and
    the calls of [controls.apply] alone. *)
Definition preserves {A} (m : M A) : Prop :=
  ∀ w, ∃ a w', m w = Returns a w' ∧
    memoContext (cells w') = memoContext (cells w) ∧
    contexts w' = contexts w ∧
    applied w' = applied w.

(** *** Facts about the memo *)

Lemma sameValue_refl (a : Val) : sameValue a a = true.
Proof. destruct a; cbn; try done; by apply bool_decide_eq_true. Qed.

Lemma sameValue_trans (a b c : Val) :
  sameValue a b = true -> sameValue b c = true -> sameValue a c = true.
Proof.
  destruct a, b; cbn; try done; destruct c; cbn; try done;
    rewrite !bool_decide_eq_true; congruence.
Qed.

Lemma sameValue_undefined (a : Val) : sameValue a VUndefined = true <-> a = VUndefined.
Proof. destruct a; cbn; split; (done || congruence). Qed.

Lemma areHookInputsEqual_refl (deps : list Val) : areHookInputsEqual deps deps = true.
Proof. induction deps as [| a deps IH]; cbn; [done |]. by rewrite sameValue_refl. Qed.

Lemma areHookInputsEqual_trans (d1 d2 d3 : list Val) :
  areHookInputsEqual d1 d2 = true -> areHookInputsEqual d2 d3 = true ->
  areHookInputsEqual d1 d3 = true.
Proof.
  revert d2 d3. induction d1 as [| a d1 IH]; intros [| b d2] [| c d3]; cbn; try done.
  intros [Hab H12]%andb_true_iff [Hbc H23]%andb_true_iff.
  rewrite (sameValue_trans a b c Hab Hbc). cbn. by apply (IH d2).
Qed.

Lemma preserves_useRefHasMounted : preserves useRefHasMounted.
Proof. intros [[[[? ?] |] ? ? ? ? ?] ? ? ?]; by eexists _, _. Qed.

Lemma preserves_useConstantLayoutDelta : preserves useConstantLayoutDelta.
Proof. intros [[? [? |] ? ? ? ?] ? ? ?]; by eexists _, _. Qed.

Lemma preserves_useRefLayoutDeltas (init : list ObjId) :
  preserves (useRefLayoutDeltas init).
Proof. intros [[? ? [? |] ? ? ?] ? ? ?]; by eexists _, _. Qed.

Lemma preserves_useMotionValueZero : preserves useMotionValueZero.
Proof. intros [[? ? ? [? |] ? ?] ? ? ?]; by eexists _, _. Qed.

(** The factory throws where it reads [values], before it allocates. *)
Lemma contextObject_throws (parentContext : MotionContextProps) (controls : ObjId)
    (presenceContext : option Presence.t) (props : MotionProps)
    (hasMounted layoutDelta : ObjId) (layoutDeltas : list ObjId)
    (layoutProgress : ObjId) (w : World) :
  contextObject parentContext controls presenceContext props
    hasMounted layoutDelta layoutDeltas layoutProgress w
  = Throws (ReferenceError "values") w.
Proof. reflexivity. Qed.

(** A memo that has to run a factory that throws, throws, and caches
    nothing. *)
Lemma useMemo_throws (factory : M ObjId) (deps : list Val) (e : Exception) (w : World) :
  rebuilds deps w = true -> factory w = Throws e w ->
  useMemo factory deps w = Throws e w.
Proof.
  unfold rebuilds, useMemo, bind, getCells. intros Hre Hf.
  destruct (memoContext (cells w)) as [[last value] |].
  - apply negb_true_iff in Hre. by rewrite Hre, Hf.
  - by rewrite Hf.
Qed.

(** A memo whose dependencies are the cached ones runs no factory. *)
Lemma useMemo_cached (factory : M ObjId) (deps last : list Val) (value : ObjId)
    (w : World) :
  memoContext (cells w) = Some (last, value) ->
  areHookInputsEqual deps last = true ->
  useMemo factory deps w = Returns value w.
Proof.
  unfold useMemo, bind, getCells. intros -> Heq. by rewrite Heq.
Qed.

(** An evaluation that has to build the context object throws where the
    factory reads [values]: the hooks before the memo have run, nothing
    after it has. *)
Lemma useMotionContext_throws (parentContext : MotionContextProps)
    (controls visualElement : ObjId) (isStatic : bool) (props : MotionProps)
    (presenceContext : option Presence.t) (w : World) :
  rebuilds (dependencies parentContext isStatic presenceContext props) w = true ->
  ∃ w', useMotionContext parentContext controls visualElement isStatic props
          presenceContext w = Throws (ReferenceError "values") w' ∧
    memoContext (cells w') = memoContext (cells w) ∧
    contexts w' = contexts w ∧
    applied w' = applied w.
Proof.
  intros Hre. unfold useMotionContext.
  destruct (preserves_useRefHasMounted w) as (hm & w1 & E1 & M1 & C1 & A1).
  unfold bind at 1. rewrite E1.
  destruct (preserves_useConstantLayoutDelta w1) as (ld & w2 & E2 & M2 & C2 & A2).
  unfold bind at 1. rewrite E2.
  destruct (preserves_useRefLayoutDeltas
              (default [] (Ctx.layoutDeltas parentContext) ++ [ld]) w2)
    as (lds & w3 & E3 & M3 & C3 & A3).
  unfold bind at 1. rewrite E3.
  destruct (preserves_useMotionValueZero w3) as (lp & w4 & E4 & M4 & C4 & A4).
  unfold bind at 1. rewrite E4.
  unfold bind at 1. rewrite (useMemo_throws _ _ (ReferenceError "values")).
  - exists w4. split; [reflexivity |]. repeat split; congruence.
  - unfold rebuilds in *. by rewrite M4, M3, M2, M1.
  - apply contextObject_throws.
Qed.

(** *** Facts about the depth *)

(** Up to 2^53 the sum is exact. *)
Lemma roundToDouble_exact (z : Z) :
  (Z.abs z <= 2 ^ 53)%Z -> roundToDouble z = z.
Proof.
  intros Hz. unfold roundToDouble. cbv zeta.
  destruct (Z.leb_spec (Z.log2 (Z.abs z) - 52) 0) as [_ | He]; [done |].
  assert (Ha : Z.abs z = (2 ^ 53)%Z).
  { assert (Hpos : (0 < Z.abs z)%Z).
    { destruct (Z.abs z) eqn:E; [cbn in He; lia | lia | lia]. }
    pose proof (Z.log2_spec _ Hpos) as [Hlo _].
    assert (2 ^ 53 <= 2 ^ Z.log2 (Z.abs z))%Z by (apply Z.pow_le_mono_r; lia).
    lia. }
  rewrite Ha. destruct (Z.abs_spec z) as [[_ E] | [_ E]]; rewrite Ha in E.
  - by subst z.
  - assert (z = (- 2 ^ 53)%Z) as -> by lia. reflexivity.
Qed.

(** From 2^53 on, adding 1 to a depth no longer increases it. *)
Lemma layoutDepth_saturates (parentContext : MotionContextProps) (props : MotionProps) :
  Ctx.layoutDepth parentContext = (2 ^ 53)%Z ->
  layoutDepth parentContext props = (2 ^ 53)%Z.
Proof.
  intros E. unfold layoutDepth. rewrite E. by destruct (truthy _).
Qed.

(** *** Facts about the propagation test *)

Lemma truthy_jsOr (a b : Val) : truthy (jsOr a b) = truthy a || truthy b.
Proof. unfold jsOr. by destruct (truthy a) eqn:E; rewrite ?E. Qed.

Lemma shouldPropagateControls_truthy (props : MotionProps) :
  truthy (shouldPropagateControls props) =
    truthy (Props.variants props) || isVariantLabel (Props.animate props) ||
    isVariantLabel (Props.whileTap props) || isVariantLabel (Props.whileHover props) ||
    isAnimationControls (Props.animate props).
Proof. unfold shouldPropagateControls. by rewrite !truthy_jsOr. Qed.

Lemma isVariantLabel_spec (v : Val) : isVariantLabel v = true <-> variantLabel v.
Proof.
  unfold isVariantLabel, variantLabel. split.
  - destruct v; cbn; try discriminate; eauto.
  - intros [[s' ->] | (id & items & ->)]; reflexivity.
Qed.

Lemma isAnimationControls_spec (v : Val) : isAnimationControls v = true <-> controlsHandle v.
Proof.
  unfold isAnimationControls, controlsHandle. split.
  - destruct v; cbn; try discriminate; eauto.
  - intros [id ->]. reflexivity.
Qed.

Lemma shouldPropagateControls_spec (props : MotionProps) :
  variantsTyped props ->
  truthy (shouldPropagateControls props) = true <-> propagationRoot props.
Proof.
  intros Hty. rewrite shouldPropagateControls_truthy. unfold propagationRoot.
  rewrite !orb_true_iff, !isVariantLabel_spec, isAnimationControls_spec.
  assert (Hv : truthy (Props.variants props) = true <-> Props.variants props ≠ VUndefined).
  { destruct Hty as [-> | (id & fields & ->)]; cbn; split; congruence. }
  rewrite Hv. tauto.
Qed.

(** *** Properties of the derivation *)

(** C7: the resolved initial state the code computes is the one the
    specification describes, for every presence scope and all props. *)
Theorem initialState_resolution (presenceContext : option Presence.t)
    (props : MotionProps) :
  initialState presenceContext props = resolvedInitialState presenceContext props.
Proof.
  unfold initialState, resolvedInitialState, initial, isAnimationControls.
  destruct props as [i a v t h l]. cbn [Props.initial Props.animate].
  assert (Hcore : ∀ effective,
    (if sameValue effective (VBool false) && negb (instanceofAnimationControls a)
     then a else if negb (typeofBoolean effective) then effective else VUndefined) =
    match effective with
    | VBool false =>
        match a with VAnimationControls _ => VUndefined | _ => a end
    | VBool true => VUndefined
    | _ => effective
    end).
  { intros [| | [|] | | | | | |]; cbn; try reflexivity. by destruct a. }
  destruct presenceContext as [[pid override] |]; [| exact (Hcore i)].
  destruct override;
    first [ exact (Hcore i)
          | match goal with
            | |- context [Presence.initial {| Presence.id := _; Presence.initial := ?x |}] =>
                exact (Hcore x)
            end ].
Qed.


(** C4: for every parent context and every child, an evaluation that has
    to build the child's context throws a [ReferenceError] where the factory
    reads [values], before the [layoutDepth] property is evaluated: no
    context object is created or changed, so that the child gets no
    [layoutDepth]. *)
Theorem layoutDepth_is_never_derived (parentContext : MotionContextProps)
    (controls visualElement : ObjId) (isStatic : bool) (props : MotionProps)
    (presenceContext : option Presence.t) (w : World) :
  rebuilds (dependencies parentContext isStatic presenceContext props) w = true ->
  ∃ w', useMotionContext parentContext controls visualElement isStatic props
          presenceContext w = Throws (ReferenceError "values") w' ∧
    contexts w' = contexts w.
Proof.
  intros Hre.
  destruct (useMotionContext_throws parentContext controls visualElement isStatic
              props presenceContext w Hre) as (w' & E & _ & C & _).
  exists w'. by split.
Qed.

(** C5: a derivation by a component whose memo holds no context throws a
    [ReferenceError] and leaves the memo empty; a derivation that follows,
    with the same six dependencies or with others, throws in turn. There
    is no prior object whose identity the second could keep. *)
Theorem rederivation_finds_no_prior_context
    (parent1 parent2 : MotionContextProps) (controls1 controls2 : ObjId)
    (visualElement1 visualElement2 : ObjId) (static1 static2 : bool)
    (props1 props2 : MotionProps) (presence1 presence2 : option Presence.t)
    (w : World) :
  memoContext (cells w) = None ->
  ∃ w1 w2,
    useMotionContext parent1 controls1 visualElement1 static1 props1 presence1 w
      = Throws (ReferenceError "values") w1 ∧
    memoContext (cells w1) = None ∧
    useMotionContext parent2 controls2 visualElement2 static2 props2 presence2 w1
      = Throws (ReferenceError "values") w2 ∧
    memoContext (cells w2) = None ∧
    contexts w2 = contexts w.
Proof.
  intros Hmemo.
  destruct (useMotionContext_throws parent1 controls1 visualElement1 static1 props1
              presence1 w) as (w1 & E1 & M1 & C1 & _).
  { unfold rebuilds. by rewrite Hmemo. }
  rewrite Hmemo in M1.
  destruct (useMotionContext_throws parent2 controls2 visualElement2 static2 props2
              presence2 w1) as (w2 & E2 & M2 & C2 & _).
  { unfold rebuilds. by rewrite M1. }
  exists w1, w2. repeat split; congruence.
Qed.

(** C10: when [variants], [whileTap] or [whileHover] change between two
    evaluations, whether or not the six dependencies stay the same, the
    second evaluation does not return a prior object: the first threw a
    [ReferenceError] and cached nothing, and the second throws as well;
    neither creates a context object or calls [controls.apply]. *)
Theorem variant_props_change_finds_no_prior_context
    (parentContext : MotionContextProps) (controls visualElement : ObjId)
    (isStatic : bool) (presenceContext : option Presence.t) (props : MotionProps)
    (variants whileTap whileHover : Val) (w : World) :
  memoContext (cells w) = None ->
  ∃ w1 w2,
    useMotionContext parentContext controls visualElement isStatic props
      presenceContext w = Throws (ReferenceError "values") w1 ∧
    useMotionContext parentContext controls visualElement isStatic
      (withVariantProps variants whileTap whileHover props) presenceContext w1
      = Throws (ReferenceError "values") w2 ∧
    contexts w2 = contexts w ∧
    applied w2 = applied w.
Proof.
  intros Hmemo.
  destruct (useMotionContext_throws parentContext controls visualElement isStatic props
              presenceContext w) as (w1 & E1 & M1 & C1 & A1).
  { unfold rebuilds. by rewrite Hmemo. }
  rewrite Hmemo in M1.
  destruct (useMotionContext_throws parentContext controls visualElement isStatic
              (withVariantProps variants whileTap whileHover props) presenceContext w1)
    as (w2 & E2 & _ & C2 & A2).
  { unfold rebuilds. by rewrite M1. }
  exists w1, w2. repeat split; congruence.
Qed.

(** C6: for props whose [variants] is absent or an object, the test of
    lines 89-94 is truthy exactly for a propagation root as the claim
    defines it; but whether the component is one or not, the evaluation
    that has to build its context throws a [ReferenceError], and no context
    object with a [controls] field comes to exist. *)
Theorem propagation_root_context_is_never_built (parentContext : MotionContextProps)
    (controls visualElement : ObjId) (isStatic : bool) (props : MotionProps)
    (presenceContext : option Presence.t) (w : World) :
  variantsTyped props ->
  rebuilds (dependencies parentContext isStatic presenceContext props) w = true ->
  (truthy (shouldPropagateControls props) = true <-> propagationRoot props) ∧
  ∃ w', useMotionContext parentContext controls visualElement isStatic props
          presenceContext w = Throws (ReferenceError "values") w' ∧
    contexts w' = contexts w.
Proof.
  intros Hty Hre. split; [by apply shouldPropagateControls_spec |].
  destruct (useMotionContext_throws parentContext controls visualElement isStatic
              props presenceContext w Hre) as (w' & E & _ & C & _).
  exists w'. by split.
Qed.

(** X9: an evaluation that has to build the context gets no further than
    the memo: it throws, [controls.apply] is not called with the initial
    state, the memo is left as it was, and no context object is created or
    written to. *)
Theorem failed_evaluation_applies_nothing (parentContext : MotionContextProps)
    (controls visualElement : ObjId) (isStatic : bool) (props : MotionProps)
    (presenceContext : option Presence.t) (w : World) :
  rebuilds (dependencies parentContext isStatic presenceContext props) w = true ->
  ∃ e w', useMotionContext parentContext controls visualElement isStatic props
            presenceContext w = Throws e w' ∧
    applied w' = applied w ∧
    memoContext (cells w') = memoContext (cells w) ∧
    contexts w' = contexts w.
Proof.
  intros Hre.
  destruct (useMotionContext_throws parentContext controls visualElement isStatic
              props presenceContext w Hre) as (w' & E & M & C & A).
  by exists (ReferenceError "values"), w'.
Qed.

(** *** The properties at sample inputs *)

(** C4 at a child that declares [animate: "open"] under a parent of
    depth 0. *)
Lemma layoutDepth_sample :
  rebuilds (dependencies (parentAt 0) false None labelProps) unmounted = true ∧
  ∃ w', useMotionContext (parentAt 0) 7 8 false labelProps None unmounted
          = Throws (ReferenceError "values") w' ∧
    contexts w' = ∅.
Proof.
  assert (Hre : rebuilds (dependencies (parentAt 0) false None labelProps) unmounted
                = true) by reflexivity.
  split; [exact Hre |].
  exact (layoutDepth_is_never_derived (parentAt 0) 7 8 false labelProps None
           unmounted Hre).
Defined.

(** C5 at two evaluations with the same props. *)
Lemma rederivation_sample :
  memoContext (cells unmounted) = None ∧
  ∃ w1 w2,
    useMotionContext (parentAt 0) 7 8 false labelProps None unmounted
      = Throws (ReferenceError "values") w1 ∧
    memoContext (cells w1) = None ∧
    useMotionContext (parentAt 0) 7 8 false labelProps None w1
      = Throws (ReferenceError "values") w2 ∧
    memoContext (cells w2) = None ∧
    contexts w2 = ∅.
Proof.
  split; [reflexivity |].
  exact (rederivation_finds_no_prior_context (parentAt 0) (parentAt 0) 7 7 8 8
           false false labelProps labelProps None None unmounted eq_refl).
Defined.

(** C10 at two evaluations between which [variants] appears. *)
Lemma variant_props_change_sample :
  memoContext (cells unmounted) = None ∧
  ∃ w1 w2,
    useMotionContext (parentAt 0) 7 8 false noProps None unmounted
      = Throws (ReferenceError "values") w1 ∧
    useMotionContext (parentAt 0) 7 8 false
      (withVariantProps (VObject 5 []) VUndefined VUndefined noProps) None w1
      = Throws (ReferenceError "values") w2 ∧
    contexts w2 = ∅ ∧
    applied w2 = [].
Proof.
  split; [reflexivity |].
  exact (variant_props_change_finds_no_prior_context (parentAt 0) 7 8 false None
           noProps (VObject 5 []) VUndefined VUndefined unmounted eq_refl).
Defined.

(** C6 at a propagation root, a component with [animate: "open"]. *)
Lemma propagation_root_sample :
  variantsTyped labelProps ∧
  (truthy (shouldPropagateControls labelProps) = true <-> propagationRoot labelProps) ∧
  ∃ w', useMotionContext (parentAt 0) 7 8 false labelProps None unmounted
          = Throws (ReferenceError "values") w' ∧
    contexts w' = ∅.
Proof.
  assert (Hty : variantsTyped labelProps) by (left; reflexivity).
  split; [exact Hty |].
  exact (propagation_root_context_is_never_built (parentAt 0) 7 8 false labelProps
           None unmounted Hty eq_refl).
Defined.

(** X9 at a component with the initial state ["closed"] to apply. *)
Lemma failed_evaluation_sample :
  truthy (jsOr (initialState None closedOpenProps) (Ctx.initial (parentAt 0))) = true ∧
  ∃ e w', useMotionContext (parentAt 0) 7 8 true closedOpenProps None unmounted
            = Throws e w' ∧
    applied w' = [] ∧
    memoContext (cells w') = None ∧
    contexts w' = ∅.
Proof.
  split; [reflexivity |].
  exact (failed_evaluation_applies_nothing (parentAt 0) 7 8 true closedOpenProps None
           unmounted eq_refl).
Defined.

End Context.
